(** * EntityX Python bridge: event proxies, script realization, update loop

    A shallow embedding of [entityx/python/PythonSystem.h] and
    [PythonSystem.cc]: the [PythonScript] component, [PythonEventProxy] and
    its receiver list, [BroadcastPythonEventProxy::receive], the two
    [PythonSystem::receive] handlers, [PythonSystem::update],
    [EntityManager_configure] and [get_component].

    Two collaborators live outside the repository and appear here through
    their interface only:
    - the embedded interpreter (boost::python / CPython), as the record
      [Python]: importing, attribute lookup, calling and truth testing;
    - the EntityX entity manager, as the record [EntityManager] with the
      operations the bridge calls on it.

    Script methods are transformers of the interpreter state: a handler that
    re-enters the entity manager while a receiver list is being walked is
    outside this model. *)

From stdpp Require Import base list strings.

Set Default Proof Using "Type".
#[local] Set Warnings "-clear-no-such-hyp".

(** ** Entity identity *)

(** [Entity::Id]: an index and a version. *)
Record Id := mkId { index : nat; version : nat }.

#[global] Instance Id_eq_dec : EqDecision Id.
Proof. solve_decision. Defined.

(** An [Entity] is a manager pointer and an id; [operator==] compares both.
    There is one entity manager here, so the id is the whole handle. *)
Definition Entity := Id.

(** ** The entity manager, for one component type *)

(** Modelled from the spec: the ECS engine (EntityX, an external library) --
    entity creation with index and version, typed component assignment and
    retrieval keyed by entity identity, iteration over the entities holding
    a component in index order.  [components_] is the pool of one component
    type together with its mask bit: [Some c] when the entity at that index
    holds a component. *)
Record EntityManager (C : Type) := mkEntityManager {
  entity_version_ : list nat;
  free_list_ : list nat;
  components_ : list (option C)
}.
Arguments mkEntityManager {C} _ _ _.
Arguments entity_version_ {C} _.
Arguments free_list_ {C} _.
Arguments components_ {C} _.

(** [ComponentHandle<C>]: a manager pointer (null for the default handle)
    and an id. *)
Record ComponentHandle := mkHandle { manager_ : bool; id_ : Id }.

Definition INVALID : Id := mkId 0 0.

Section ECS.
Context {C : Type}.

Definition em_valid (em : EntityManager C) (id : Id) : bool :=
  bool_decide (entity_version_ em !! index id = Some (version id)).

Definition has_component (em : EntityManager C) (id : Id) : bool :=
  match components_ em !! index id with
  | Some (Some _) => true
  | _ => false
  end.

(** [EntityManager::component<C>(id)]: the default (null) handle when the
    entity holds no component of the type. *)
Definition component (em : EntityManager C) (id : Id) : ComponentHandle :=
  if has_component em id then mkHandle true id else mkHandle false INVALID.

(** [ComponentHandle::valid()], which [operator bool] returns. *)
Definition handle_valid (em : EntityManager C) (h : ComponentHandle) : bool :=
  manager_ h && em_valid em (id_ h) && has_component em (id_ h).

(** [ComponentHandle::get()]: the pointer into the pool. *)
Definition handle_get (em : EntityManager C) (h : ComponentHandle) : option C :=
  mjoin (components_ em !! index (id_ h)).

(** [ComponentHandle::operator->]: asserts [valid()], then [get()]; [None]
    when the assertion fails. *)
Definition handle_arrow (em : EntityManager C) (h : ComponentHandle)
  : option C :=
  if handle_valid em h then handle_get em h else None.

(** Writing through a valid handle. *)
Definition handle_set (h : ComponentHandle) (c : C) (em : EntityManager C)
  : EntityManager C :=
  mkEntityManager (entity_version_ em) (free_list_ em)
    (<[index (id_ h) := Some c]> (components_ em)).

(** [EntityManager::create()]: a recycled index keeps the version it was
    left with, a new index starts at version 1. *)
Definition create (em : EntityManager C) : Entity * EntityManager C :=
  match free_list_ em with
  | i :: rest =>
      (mkId i (default 0 (entity_version_ em !! i)),
       mkEntityManager (entity_version_ em) rest (components_ em))
  | [] =>
      let i := length (entity_version_ em) in
      (mkId i 1,
       mkEntityManager (entity_version_ em ++ [1]) [] (components_ em ++ [None]))
  end.

(** The storing half of [EntityManager::assign<C>(id, ...)]: the component
    goes into the pool and the mask bit is set. *)
Definition store (id : Id) (c : C) (em : EntityManager C) : EntityManager C :=
  mkEntityManager (entity_version_ em) (free_list_ em)
    (<[index id := Some c]> (components_ em)).

(** [EntityManager::each<C>]: the entities holding a component, by index. *)
Fixpoint each_from (i : nat) (vs : list nat) (cs : list (option C))
  : list (Entity * C) :=
  match vs, cs with
  | v :: vs', Some c :: cs' => (mkId i v, c) :: each_from (S i) vs' cs'
  | _ :: vs', None :: cs' => each_from (S i) vs' cs'
  | _, _ => []
  end.

Definition each (em : EntityManager C) : list (Entity * C) :=
  each_from 0 (entity_version_ em) (components_ em).

(** ** [get_component] *)

(** [template <typename Component> static Component* get_component(em, id)]:
    [None] is the [NULL] pointer, which boost::python hands to the script
    as Python's [None]. *)
Definition get_component (em : EntityManager C) (id : Id) : option C :=
  let handle := component em id in
  if negb (handle_valid em handle) then None
  else handle_get em handle.

End ECS.

(** ** The interpreter *)

(** What the bridge uses of boost::python.  [py_object] is
    [boost::python::object]; a default-constructed one is [Py_None].
    Attribute lookup and calls return a value or raise ([inr], the
    exception that [error_already_set] stands for).  [operator!] on an
    object is truth testing ([PyObject_IsTrue]), as the tests rely on with
    [REQUIRE(!scripte->object.attr("collided"))]; Python's [None] tests
    false and has no [update] attribute. *)
Record Python := mkPython {
  py_object : Type;
  py_exception : Type;
  interpreter : Type;
  Py_None : py_object;
  PyObject_IsTrue : interpreter → py_object → bool;
  PyObject_GetAttrString :
    interpreter → py_object → string → py_object + py_exception;
  PyObject_Call :
    interpreter → py_object → list py_object →
    (py_object + py_exception) * interpreter;
  PyImport_Import :
    interpreter → string → (py_object + py_exception) * interpreter;
  (** to-Python conversions of the native values the bridge passes *)
  Id_to_python : Id → py_object;
  TimeDelta : Type;
  TimeDelta_to_python : TimeDelta → py_object;
  None_is_false : ∀ st, PyObject_IsTrue st Py_None = false;
  (** [None] has no attribute [update]: the lookup raises [AttributeError] *)
  None_has_no_update :
    ∀ st, ∃ exc, PyObject_GetAttrString st Py_None "update" = inr exc
}.

(** [PyObject_HasAttrString]: 1 when the lookup succeeds, 0 when it raises. *)
Definition PyObject_HasAttrString (P : Python) (st : interpreter P)
    (o : py_object P) (name : string) : bool :=
  match PyObject_GetAttrString P st o name with
  | inl _ => true
  | inr _ => false
  end.

(** ** [PythonScript] *)

Record PythonScript (P : Python) := mkPythonScript {
  object : py_object P;
  args : list (py_object P);
  module : string;
  cls : string
}.
Arguments mkPythonScript {P} _ _ _ _.
Arguments object {P} _.
Arguments args {P} _.
Arguments module {P} _.
Arguments cls {P} _.

(** [unpack_args(arg, remainder...)]: append, then recurse on the rest. *)
Fixpoint unpack_args {P : Python} (pack : list (py_object P))
    (args : list (py_object P)) : list (py_object P) :=
  match pack with
  | [] => args
  | arg :: remainder => unpack_args remainder (args ++ [arg])
  end.

(** [PythonScript(module, cls, args...)]. *)
Definition PythonScript_new {P : Python} (module cls : string)
    (pack : list (py_object P)) : PythonScript P :=
  mkPythonScript (Py_None P) (unpack_args pack []) module cls.

(** [explicit PythonScript(boost::python::object object)]. *)
Definition PythonScript_of_object {P : Python} (o : py_object P)
  : PythonScript P :=
  mkPythonScript o [] "" "".

(** ** [PythonEventProxy] *)

(** [can_send] is virtual: [can_send_override] is the subclass's version,
    [None] for a proxy that keeps the default. *)
Record PythonEventProxy (P : Python) := mkProxy {
  handler_name : string;
  entities : list Entity;
  can_send_override : option (interpreter P → py_object P → bool)
}.
Arguments mkProxy {P} _ _ _.
Arguments handler_name {P} _.
Arguments entities {P} _.
Arguments can_send_override {P} _.

(** [explicit PythonEventProxy(const std::string &handler_name)]. *)
Definition PythonEventProxy_new {P : Python} (handler_name : string)
  : PythonEventProxy P :=
  mkProxy handler_name [] None.

Definition can_send {P : Python} (proxy : PythonEventProxy P)
    (st : interpreter P) (o : py_object P) : bool :=
  match can_send_override proxy with
  | Some f => f st o
  | None => PyObject_HasAttrString P st o (handler_name proxy)
  end.

(** [std::list<Entity>::push_back]. *)
Definition push_back (entity : Entity) (l : list Entity) : list Entity :=
  l ++ [entity].

(** The loop of [delete_receiver]: erase the first equal element and stop. *)
Fixpoint erase_first (entity : Entity) (l : list Entity) : list Entity :=
  match l with
  | [] => []
  | i :: rest =>
      if decide (entity = i) then rest else i :: erase_first entity rest
  end.

Definition add_receiver {P : Python} (entity : Entity)
    (proxy : PythonEventProxy P) : PythonEventProxy P :=
  mkProxy (handler_name proxy) (push_back entity (entities proxy))
    (can_send_override proxy).

Definition delete_receiver {P : Python} (entity : Entity)
    (proxy : PythonEventProxy P) : PythonEventProxy P :=
  mkProxy (handler_name proxy) (erase_first entity (entities proxy))
    (can_send_override proxy).

(** ** Events of the entity manager *)

Record EntityDestroyedEvent := mkDestroyed { destroyed_entity : Entity }.

(** [ComponentAddedEvent<PythonScript>]: the entity and a handle to the
    component that was added. *)
Record ComponentAddedEvent := mkAdded {
  added_entity : Entity;
  added_component : ComponentHandle
}.

(** ** The bridge's state and its monad *)

(** A record of every call the bridge makes into the interpreter:
    [Called f args] for [f(args...)] on an object, [Sent o name args] for
    [o.attr(name)(args...)]. *)
Inductive call_record (P : Python) :=
| Called (f : py_object P) (arguments : list (py_object P))
| Sent (receiver : py_object P) (name : string)
       (arguments : list (py_object P)).
Arguments Called {P} _ _.
Arguments Sent {P} _ _ _.

(** The state the bridge works on: the interpreter, the entity manager's
    [PythonScript] pool, the proxy objects (the targets of the shared
    pointers), [PythonSystem::event_proxies_] as pointers to them, and two
    logs: the calls made into the interpreter and what [PyErr_Print] wrote. *)
Record world (P : Python) := mkWorld {
  python : interpreter P;
  em_ : EntityManager (PythonScript P);
  proxy_heap : list (PythonEventProxy P);
  event_proxies_ : list nat;
  calls : list (call_record P);
  printed : list (py_exception P)
}.
Arguments mkWorld {P} _ _ _ _ _ _.
Arguments python {P} _.
Arguments em_ {P} _.
Arguments proxy_heap {P} _.
Arguments event_proxies_ {P} _.
Arguments calls {P} _.
Arguments printed {P} _.

(** What leaves a call other than its result: a Python exception carried by
    [boost::python::error_already_set], or a failed [assert] of EntityX
    (a handle dereferenced while invalid). *)
Inductive failure (P : Python) :=
| error_already_set (exc : py_exception P)
| assertion_failed.
Arguments error_already_set {P} _.
Arguments assertion_failed {P}.

Inductive outcome (P : Python) (A : Type) :=
| Ok (a : A)
| Throw (f : failure P).
Arguments Ok {P A} _.
Arguments Throw {P A} _.

(** State survives a throw: what was done before the exception stays done. *)
Definition M (P : Python) (A : Type) : Type := world P → outcome P A * world P.

Definition ret {P A} (a : A) : M P A := λ w, (Ok a, w).

Definition bind {P A B} (m : M P A) (k : A → M P B) : M P B :=
  λ w, match m w with
       | (Ok a, w') => k a w'
       | (Throw f, w') => (Throw f, w')
       end.

Definition throw {P A} (f : failure P) : M P A := λ w, (Throw f, w).

(** [try { m } catch (const py::error_already_set&) { handler }]. *)
Definition try_catch {P A} (m : M P A) (handler : py_exception P → M P A)
  : M P A :=
  λ w, match m w with
       | (Throw (error_already_set exc), w') => handler exc w'
       | r => r
       end.

Definition gets {P A} (f : world P → A) : M P A := λ w, (Ok (f w), w).
Definition modify {P} (f : world P → world P) : M P unit := λ w, (Ok tt, f w).

Declare Scope bridge_scope.
Delimit Scope bridge_scope with bridge.
Notation "x <- m ;; k" := (bind m (λ x, k))
  (at level 90, m at level 80, right associativity) : bridge_scope.
Notation "m ;;; k" := (bind m (λ _, k))
  (at level 90, right associativity) : bridge_scope.
Open Scope bridge_scope.

(** A range-based [for] whose body may throw. *)
Fixpoint for_each {P A} (l : list A) (body : A → M P unit) : M P unit :=
  match l with
  | [] => ret tt
  | x :: rest => body x ;;; for_each rest body
  end.

Section Bridge.
Context {P : Python}.

Definition with_python (st : interpreter P) (w : world P) : world P :=
  mkWorld st (em_ w) (proxy_heap w) (event_proxies_ w) (calls w) (printed w).
Definition with_em (em : EntityManager (PythonScript P)) (w : world P)
  : world P :=
  mkWorld (python w) em (proxy_heap w) (event_proxies_ w) (calls w) (printed w).
Definition with_proxy_heap (h : list (PythonEventProxy P)) (w : world P)
  : world P :=
  mkWorld (python w) (em_ w) h (event_proxies_ w) (calls w) (printed w).
Definition with_event_proxies (ps : list nat) (w : world P) : world P :=
  mkWorld (python w) (em_ w) (proxy_heap w) ps (calls w) (printed w).
Definition log_call (c : call_record P) (w : world P) : world P :=
  mkWorld (python w) (em_ w) (proxy_heap w) (event_proxies_ w)
    (calls w ++ [c]) (printed w).
Definition log_printed (exc : py_exception P) (w : world P) : world P :=
  mkWorld (python w) (em_ w) (proxy_heap w) (event_proxies_ w) (calls w)
    (printed w ++ [exc]).

(** *** boost::python operations *)

Definition lift_result (r : (py_object P + py_exception P) * interpreter P)
    (w : world P) : outcome P (py_object P) * world P :=
  match r with
  | (inl v, st) => (Ok v, with_python st w)
  | (inr exc, st) => (Throw (error_already_set exc), with_python st w)
  end.

(** [py::import(name)]. *)
Definition import (name : string) : M P (py_object P) :=
  λ w, lift_result (PyImport_Import P (python w) name) w.

(** [py::object v = o.attr(name)]. *)
Definition attr (o : py_object P) (name : string) : M P (py_object P) :=
  λ w, match PyObject_GetAttrString P (python w) o name with
       | inl v => (Ok v, w)
       | inr exc => (Throw (error_already_set exc), w)
       end.

(** [f(args...)] on an object.  A script call is modelled by what it
    returns or raises and by the interpreter state it leaves.  A script
    that, while it runs, calls back into the functions the bridge exports
    to it ([destroy], [EntityManager.configure], [emit], [assign_to]) is
    outside this model: the properties below that say which calls one pass
    makes are about scripts that do not. *)
Definition call (f : py_object P) (arguments : list (py_object P))
  : M P (py_object P) :=
  λ w, let w1 := log_call (Called f arguments) w in
       lift_result (PyObject_Call P (python w1) f arguments) w1.

(** [o.attr(name)(args...)]: the attribute is looked up, then called. *)
Definition call_method (o : py_object P) (name : string)
    (arguments : list (py_object P)) : M P (py_object P) :=
  λ w, match PyObject_GetAttrString P (python w) o name with
       | inl f =>
           let w1 := log_call (Sent o name arguments) w in
           lift_result (PyObject_Call P (python w1) f arguments) w1
       | inr exc => (Throw (error_already_set exc), w)
       end.

(** [!o] for a [py::object]: the negated truth test.  An object whose
    truth test itself raises is not modelled: [PyObject_IsTrue] is total. *)
Definition not_object (o : py_object P) : M P bool :=
  λ w, (Ok (negb (PyObject_IsTrue P (python w) o)), w).

Definition PyErr_Print (exc : py_exception P) : M P unit :=
  modify (log_printed exc).
Definition PyErr_Clear : M P unit := ret tt.

(** *** Handles and shared pointers *)

(** [handle->]. *)
Definition deref (h : ComponentHandle) : M P (PythonScript P) :=
  λ w, match handle_arrow (em_ w) h with
       | Some c => (Ok c, w)
       | None => (Throw assertion_failed, w)
       end.

(** [handle->object = o]. *)
Definition set_object (h : ComponentHandle) (o : py_object P) : M P unit :=
  c <- deref h ;;
  modify (λ w, with_em
    (handle_set h (mkPythonScript o (args c) (module c) (cls c)) (em_ w)) w).

(** [entity.component<PythonComponent>()]. *)
Definition Entity_component (entity : Entity) : M P ComponentHandle :=
  λ w, if em_valid (em_ w) entity
       then (Ok (component (em_ w) entity), w)
       else (Throw assertion_failed, w).

(** [*proxy] for a [std::shared_ptr<PythonEventProxy>]; a shared pointer
    keeps its target alive, the failure case is never taken from a state
    built by [add_event_proxy]. *)
Definition proxy_at (p : nat) : M P (PythonEventProxy P) :=
  λ w, match proxy_heap w !! p with
       | Some proxy => (Ok proxy, w)
       | None => (Throw assertion_failed, w)
       end.

(** [proxy->f(...)] for a member function that updates the proxy. *)
Definition proxy_update (p : nat) (f : PythonEventProxy P → PythonEventProxy P)
  : M P unit :=
  modify (λ w, with_proxy_heap (alter f p (proxy_heap w)) w).

(** *** [PythonSystem::add_event_proxy] *)

(** [new Proxy(...)] held by a shared pointer. *)
Definition make_shared (proxy : PythonEventProxy P) : M P nat :=
  λ w, (Ok (length (proxy_heap w)),
        with_proxy_heap (proxy_heap w ++ [proxy]) w).

(** [add_event_proxy<Event, Proxy>(event_manager, proxy)]. *)
Definition add_event_proxy (proxy : nat) : M P unit :=
  modify (λ w, with_event_proxies (event_proxies_ w ++ [proxy]) w).

(** [add_event_proxy<Event>(event_manager, handler_name)]. *)
Definition add_broadcast_event_proxy (handler_name : string) : M P unit :=
  proxy <- make_shared (PythonEventProxy_new handler_name) ;;
  add_event_proxy proxy.

(** *** [BroadcastPythonEventProxy<Event>::receive] *)

(** [event] is the native event as boost::python hands it to the handler.
    [Broadcast_deliver] is the body of the loop. *)

Definition Broadcast_deliver (handler_name : string) (event : py_object P)
    (entity : Entity) : M P unit :=
  py_entity <- Entity_component entity ;;
  script <- deref py_entity ;;
  call_method (object script) handler_name [event] ;;;
  ret tt.

Definition Broadcast_receive (proxy : nat) (event : py_object P) : M P unit :=
  this <- proxy_at proxy ;;
  for_each (entities this) (Broadcast_deliver (handler_name this) event).

(** *** [PythonSystem::update] *)

(** The lambda handed to [em.each<PythonScript>]. *)
Definition update_entity (dt : TimeDelta P)
    (x : Entity * PythonScript P) : M P unit :=
  let '(entity, python) := x in
  try_catch
    (call_method (object python) "update" [TimeDelta_to_python P dt] ;;;
     ret tt)
    (λ exc, PyErr_Print exc ;;; PyErr_Clear ;;;
            throw (error_already_set exc)).

Definition PythonSystem_update (dt : TimeDelta P) : M P unit :=
  scripted <- gets (λ w, each (em_ w)) ;;
  for_each scripted (update_entity dt).

(** *** [PythonSystem::receive(const EntityDestroyedEvent &)] *)

Definition receive_EntityDestroyed (event : EntityDestroyedEvent) : M P unit :=
  proxies <- gets event_proxies_ ;;
  for_each proxies (λ proxy,
    proxy_update proxy (delete_receiver (destroyed_entity event))).

(** *** [PythonSystem::receive(const ComponentAddedEvent<PythonScript> &)] *)

(** The body of [if ( !event.component->object )]. *)
Definition realize (event : ComponentAddedEvent) : M P unit :=
  c <- deref (added_component event) ;;
  module <- import (module c) ;;
  c <- deref (added_component event) ;;
  cls <- attr module (cls c) ;;
  from_raw_entity <- attr cls "_from_raw_entity" ;;
  c <- deref (added_component event) ;;
  if decide (length (args c) = 0) then
    let p := added_component event in
    o <- call from_raw_entity [Id_to_python P (added_entity event)] ;;
    set_object p o
  else
    let args0 : list (py_object P) := [] in
    let args1 := args0 ++ [Id_to_python P (added_entity event)] in
    c <- deref (added_component event) ;;
    let args2 := args1 ++ args c in
    let p := added_component event in
    o <- call from_raw_entity args2 ;;
    set_object p o.

(** The body of the registration loop. *)
Definition register (event : ComponentAddedEvent) (proxy : nat) : M P unit :=
  this <- proxy_at proxy ;;
  c <- deref (added_component event) ;;
  st <- gets python ;;
  if can_send this st (object c)
  then proxy_update proxy (add_receiver (added_entity event))
  else ret tt.

(** The [if] statement: the object is constructed when the component has
    none. *)
Definition realize_if_unset (event : ComponentAddedEvent) : M P unit :=
  c <- deref (added_component event) ;;
  unset <- not_object (object c) ;;
  if unset then realize event else ret tt.

Definition receive_ComponentAdded (event : ComponentAddedEvent) : M P unit :=
  realize_if_unset event ;;;
  proxies <- gets event_proxies_ ;;
  for_each proxies (register event).

(** *** Assignment and the construction-from-script path *)

(** Modelled from the spec: the first half of
    [EntityManager::assign<PythonScript>] of the ECS engine -- the component
    is constructed and in the pool, the notification has not been delivered
    yet.  This is also where an entity stays when it is assigned its script
    before [PythonSystem::configure] has subscribed the bridge. *)
Definition assign_stored (id : Id) (c : PythonScript P) : M P unit :=
  modify (λ w, with_em (store id c (em_ w)) w).

(** Modelled from the spec: [EntityManager::assign<PythonScript>] of the ECS
    engine stores the component and emits the "component added"
    notification synchronously, at the point of the call; the bridge,
    subscribed by [PythonSystem::configure], handles it before [assign]
    returns. *)
Definition assign (id : Id) (c : PythonScript P) : M P ComponentHandle :=
  assign_stored id c ;;;
  receive_ComponentAdded (mkAdded id (mkHandle true id)) ;;;
  ret (mkHandle true id).

(** Modelled from the spec: [EntityManager::create] of the ECS engine. *)
Definition EntityManager_create : M P Entity :=
  λ w, let '(entity, em) := create (em_ w) in (Ok entity, with_em em w).

(** [Entity::Id EntityManager_configure(EntityManager&, py::object self)]. *)
Definition EntityManager_configure (self : py_object P) : M P Id :=
  entity <- EntityManager_create ;;
  assign entity (PythonScript_of_object self) ;;;
  ret entity.

(** [assign_to<PythonScript>(component, entity_manager, id)]. *)
Definition assign_to (c : PythonScript P) (id : Id) : M P unit :=
  assign id c ;;; ret tt.

(** *** Sequences of notifications *)

Inductive notification :=
| ComponentAdded (event : ComponentAddedEvent)
| EntityDestroyed (event : EntityDestroyedEvent).

Definition receive (n : notification) : M P unit :=
  match n with
  | ComponentAdded event => receive_ComponentAdded event
  | EntityDestroyed event => receive_EntityDestroyed event
  end.

(** The state after a notification, whether its handler returned or threw. *)
Definition after (n : notification) (w : world P) : world P :=
  snd (receive n w).

Definition after_all (ns : list notification) (w : world P) : world P :=
  foldl (λ w n, after n w) w ns.

(** The registration list of a proxy the bridge knows. *)
Definition registered (w : world P) (proxy : nat) : list Entity :=
  match proxy_heap w !! proxy with
  | Some this => entities this
  | None => []
  end.

End Bridge.

(** ** Vocabulary of the properties *)

Section Vocabulary.
Context {P : Python}.

(** The state [realize] leaves when everything resolves: the interpreter
    after the factory call, the component with its object stored, and one
    more entry in the call log. *)
Definition realized (ev : ComponentAddedEvent) (c : PythonScript P)
    (factory o : py_object P) (st : interpreter P) (w : world P) : world P :=
  mkWorld st
    (handle_set (added_component ev)
       (mkPythonScript o (args c) (module c) (cls c)) (em_ w))
    (proxy_heap w) (event_proxies_ w)
    (calls w ++ [Called factory (Id_to_python P (added_entity ev) :: args c)])
    (printed w).

(** The log entry of [python.object.attr("update")(dt)]. *)
Definition sent_update (dt : TimeDelta P) (x : Entity * PythonScript P)
  : call_record P :=
  Sent (object x.2) "update" [TimeDelta_to_python P dt].

(** The log entry of [py_entity->object.attr(handler_name)(event)]. *)
Definition sent_event (name : string) (event : py_object P)
    (c : PythonScript P) : call_record P :=
  Sent (object c) name [event].

(** Every script object of the list has an [update] attribute whose call
    returns, each in the interpreter state its predecessors left. *)
Fixpoint updates_return (dt : TimeDelta P)
    (l : list (Entity * PythonScript P)) (st : interpreter P) : Prop :=
  match l with
  | [] => True
  | x :: rest =>
      ∃ f v st',
        PyObject_GetAttrString P st (object x.2) "update" = inl f ∧
        PyObject_Call P st f [TimeDelta_to_python P dt] = (inl v, st') ∧
        updates_return dt rest st'
  end.

(** No receiver list of a known proxy holds an entity twice. *)
Definition duplicate_free (w : world P) : Prop :=
  ∀ p, p ∈ event_proxies_ w → NoDup (registered w p).

(** The entity is in no receiver list of a known proxy. *)
Definition unregistered (w : world P) (e : Entity) : Prop :=
  ∀ p, p ∈ event_proxies_ w → e ∉ registered w p.

(** A sequence of notifications in which a "component added" only ever
    arrives for an entity that is not registered at that point. *)
Fixpoint added_once (ns : list notification) (w : world P) : Prop :=
  match ns with
  | [] => True
  | n :: rest =>
      match n with
      | ComponentAdded ev => unregistered w (added_entity ev)
      | EntityDestroyed _ => True
      end ∧ added_once rest (after n w)
  end.

End Vocabulary.

(** ** A small interpreter

    One instance of [Python], used to run the bridge on concrete inputs: a
    module [game] with five entity classes.  An instance remembers the class,
    the entity id and the arguments its factory was called with. *)
Module Toy.

#[local] Unset Elimination Schemes.
Inductive value :=
| None_
| Module_ (name : string)
| Class_ (name : string)
| Factory (cls : string)
| EntityId (id : Id)
| Float (x : nat)
| Instance (cls : string) (id : Id) (args : list value)
| Bound (self : value) (name : string)
| Tick.
#[local] Set Elimination Schemes.

Inductive exception :=
| ImportError (name : string)
| AttributeError (name : string)
| TypeError
| RuntimeError.

(** Attributes deleted at run time, and the handlers that ran. *)
Record state := mkState {
  removed : list (Id * string);
  ran : list (Id * string)
}.

Definition mem (x : string) (l : list string) : bool :=
  existsb (String.eqb x) l.

Definition classes : list string := ["Player"; "Rock"; "Bomb"; "Moth"; "Bag"].

(** [Player]: all handlers.  [Rock]: [update] only.  [Bomb]: its handlers
    raise.  [Moth]: [update] deletes the instance's own [on_tick].  [Bag]:
    defines [__len__], and is empty. *)
Definition methods (cls : string) : list string :=
  if String.eqb cls "Rock" then ["update"]
  else if mem cls classes then ["update"; "on_tick"; "on_collision"]
  else [].

Definition is_removed (st : state) (id : Id) (name : string) : bool :=
  existsb (λ x, bool_decide (x.1 = id) && String.eqb x.2 name) (removed st).

Definition is_true (st : state) (o : value) : bool :=
  match o with
  | None_ => false
  | Instance cls _ _ => negb (String.eqb cls "Bag")
  | _ => true
  end.

Definition getattr (st : state) (o : value) (name : string)
  : value + exception :=
  match o with
  | Module_ m =>
      if String.eqb m "game" && mem name classes then inl (Class_ name)
      else inr (AttributeError name)
  | Class_ c =>
      if String.eqb name "_from_raw_entity" then inl (Factory c)
      else inr (AttributeError name)
  | Instance c id _ =>
      if mem name (methods c) && negb (is_removed st id name)
      then inl (Bound o name)
      else inr (AttributeError name)
  | _ => inr (AttributeError name)
  end.

Definition call (st : state) (f : value) (args : list value)
  : (value + exception) * state :=
  match f, args with
  | Factory c, EntityId id :: rest => (inl (Instance c id rest), st)
  | Bound (Instance c id _) name, [_] =>
      if String.eqb c "Bomb" then (inr RuntimeError, st)
      else if String.eqb c "Moth" && String.eqb name "update"
      then (inl None_, mkState (removed st ++ [(id, "on_tick")]) (ran st))
      else (inl None_, mkState (removed st) (ran st ++ [(id, name)]))
  | _, _ => (inr TypeError, st)
  end.

Definition import (st : state) (name : string)
  : (value + exception) * state :=
  if String.eqb name "game" then (inl (Module_ name), st)
  else (inr (ImportError name), st).

Definition interp : Python :=
  mkPython value exception state None_ is_true getattr call import
    EntityId nat Float (λ _, eq_refl)
    (λ _, ex_intro _ (AttributeError "update") eq_refl).
Canonical Structure interp.

Definition start : state := mkState [] [].

(** A bridge with no entity and two broadcast proxies, for [on_tick] and
    for [on_collision]. *)
Definition empty_world : world interp :=
  mkWorld (P := interp) start (mkEntityManager [] [] []) [] [] [] [].

Definition configured : world interp :=
  snd ((add_broadcast_event_proxy "on_tick" ;;;
        add_broadcast_event_proxy "on_collision") empty_world).

(** [e = entity_manager.create(); e.assign<PythonScript>("game", cls, args...)]. *)
Definition spawn (cls : string) (pack : list value) : M interp Entity :=
  e <- EntityManager_create ;;
  assign e (PythonScript_new (P := interp) "game" cls pack) ;;;
  ret e.

Definition e0 : Entity := mkId 0 1.
Definition e1 : Entity := mkId 1 1.
Definition e2 : Entity := mkId 2 1.

(** One entity, created and without a component yet. *)
Definition created : world interp :=
  snd (EntityManager_create configured).

(** Three entities: a [Moth], a [Player] and a [Rock]. *)
Definition populated : world interp :=
  snd ((spawn "Moth" [] ;;; spawn "Player" [Float 4; Float 5] ;;;
        spawn "Rock" []) configured).

(** A [Moth] between two [Player]s, before and after one update pass. *)
Definition swarm : world interp :=
  snd ((spawn "Player" [] ;;; spawn "Moth" [] ;;; spawn "Player" [])
         configured).

Definition swarm_updated : world interp :=
  snd (PythonSystem_update (P := interp) 7 swarm).

(** A [Player], then an entity whose script was stored without the
    notification reaching the bridge (assigned before
    [PythonSystem::configure] subscribed it), then another [Player]. *)
Definition stalled : world interp :=
  snd ((spawn "Player" [] ;;;
        e <- EntityManager_create ;;
        assign_stored e (PythonScript_new (P := interp) "game" "Player" []) ;;;
        spawn "Player" []) configured).

(** A [Bomb] between two [Player]s. *)
Definition mined : world interp :=
  snd ((spawn "Player" [] ;;; spawn "Bomb" [] ;;; spawn "Player" [])
         configured).

(** One proxy object subscribed for two event types, and one entity. *)
Definition shared_proxy : world interp :=
  snd ((p <- make_shared (PythonEventProxy_new "on_tick") ;;
        add_event_proxy p ;;; add_event_proxy p ;;;
        spawn "Player" []) empty_world).

(** The same proxy with an entity whose [Player] script is stored, the
    notification pending. *)
Definition shared_pending : world interp :=
  snd ((p <- make_shared (PythonEventProxy_new "on_tick") ;;
        add_event_proxy p ;;; add_event_proxy p ;;;
        e <- EntityManager_create ;;
        assign_stored e (PythonScript_new (P := interp) "game" "Player" []))
         empty_world).

(** The event [assign] emits for an entity. *)
Definition added (id : Id) : ComponentAddedEvent :=
  mkAdded id (mkHandle true id).

(** An entity with a [Player] script stored, the notification pending. *)
Definition pending : world interp :=
  snd (assign_stored e0
         (PythonScript_new (P := interp) "game" "Player" [Float 4; Float 5])
         created).

(** A script object made on the Python side, before it has an entity. *)
Definition player_self : value := Instance "Player" INVALID [].
Definition bag_self : value := Instance "Bag" INVALID [].

End Toy.

(** Closes [NoDup l] for a list of distinct literals. *)
Ltac list_NoDup :=
  repeat (apply NoDup_cons; split;
          [rewrite ?elem_of_cons, elem_of_nil; intros H;
           repeat destruct H as [H|H]; done|]);
  apply NoDup_nil; done.

(** * The rest of the bridge *)

From Stdlib Require Import Ascii.
From stdpp Require Import pretty.

(** ** [PythonEntityXLogger] *)

(** Text is [std::string], here a list of characters.  [logger_] is the
    [PythonSystem::LoggerFunction] the logger was built with; every call
    [logger_(text)] is recorded, in order, with the callback it went to. *)
Definition newline : ascii := "010"%char.

Record PythonEntityXLogger (L : Type) := mkLogger {
  logger_ : L;
  line_ : list ascii
}.
Arguments mkLogger {L} _ _.
Arguments logger_ {L} _.
Arguments line_ {L} _.

Section Logger.
Context {L : Type}.

(** [s.find(c)]: the offset of the first [c], [None] for [npos]. *)
Definition find (c : ascii) (s : list ascii) : option nat :=
  fst <$> list_find (λ x, x = c) s.

(** [s.substr(pos, n)] and [s.substr(pos)]. *)
Definition substr (s : list ascii) (pos n : nat) : list ascii :=
  take n (drop pos s).
Definition substr_from (s : list ascii) (pos : nat) : list ascii :=
  drop pos s.

(** The [while] loop of [flush]; [fuel] bounds the number of rounds. *)
Fixpoint flush_loop (fuel : nat) (lg : PythonEntityXLogger L)
    (out : list (L * list ascii)) : PythonEntityXLogger L * list (L * list ascii) :=
  match fuel with
  | 0 => (lg, out)
  | S fuel' =>
      match find newline (line_ lg) with
      | Some offset =>
          let text := substr (line_ lg) 0 offset in
          flush_loop fuel'
            (mkLogger (logger_ lg) (substr_from (line_ lg) (offset + 1)))
            (out ++ [(logger_ lg, text)])
      | None => (lg, out)
      end
  end.

(** [flush(force)].  Every round of the loop removes at least one character,
    so the length of the line bounds the rounds. *)
Definition flush (force : bool) (lg : PythonEntityXLogger L)
    (out : list (L * list ascii)) : PythonEntityXLogger L * list (L * list ascii) :=
  let '(lg1, out1) := flush_loop (length (line_ lg)) lg out in
  if force && negb (bool_decide (length (line_ lg1) = 0))
  then (mkLogger (logger_ lg1) [], out1 ++ [(logger_ lg1, line_ lg1)])
  else (lg1, out1).

(** [write(text)]: [line_ += text; flush();]. *)
Definition write (text : list ascii) (lg : PythonEntityXLogger L)
    (out : list (L * list ascii)) : PythonEntityXLogger L * list (L * list ascii) :=
  flush false (mkLogger (logger_ lg) (line_ lg ++ text)) out.

(** [~PythonEntityXLogger() { flush(true); }]. *)
Definition PythonEntityXLogger_destroy (lg : PythonEntityXLogger L)
    (out : list (L * list ascii)) : PythonEntityXLogger L * list (L * list ascii) :=
  flush true lg out.

(** A text as its complete lines, each closed by a newline, and what
    follows the last newline. *)
Definition unlines (lines : list (list ascii)) (rest : list ascii)
  : list ascii :=
  concat ((λ l, l ++ [newline]) <$> lines) ++ rest.

End Logger.

(** ** Paths and loggers of [PythonSystem] *)

(** The members [python_paths_], [stdout_] and [stderr_]. *)
Record PythonSystemSettings (L : Type) := mkSettings {
  python_paths_ : list string;
  stdout_ : L;
  stderr_ : L
}.
Arguments mkSettings {L} _ _ _.
Arguments python_paths_ {L} _.
Arguments stdout_ {L} _.
Arguments stderr_ {L} _.

(** What [configure] touches of the interpreter's [sys] module: the two
    streams ([None] for the stream the interpreter started with) and the
    module search path. *)
Record sys_module (L : Type) := mkSys {
  sys_stdout : option (PythonEntityXLogger L);
  sys_stderr : option (PythonEntityXLogger L);
  sys_path : list string
}.
Arguments mkSys {L} _ _ _.
Arguments sys_stdout {L} _.
Arguments sys_stderr {L} _.
Arguments sys_path {L} _.

Section Settings.
Context {L : Type}.

(** [python_paths_.push_back(path)]. *)
Definition add_path (path : string) (s : PythonSystemSettings L)
  : PythonSystemSettings L :=
  mkSettings (python_paths_ s ++ [path]) (stdout_ s) (stderr_ s).

(** [for ( auto path : paths ) add_path(path);]. *)
Definition add_paths (paths : list string) (s : PythonSystemSettings L)
  : PythonSystemSettings L :=
  foldl (λ s path, add_path path s) s paths.

(** [ENTITYX_INSTALLED_PYTHON_PACKAGE_DIR] comes from the generated
    [config.h]; it is a parameter here. *)
Definition add_installed_library_path (installed_dir : string)
    (s : PythonSystemSettings L) : PythonSystemSettings L :=
  add_path installed_dir s.

Definition python_paths (s : PythonSystemSettings L) : list string :=
  python_paths_ s.

Definition log_to (sout serr : L) (s : PythonSystemSettings L)
  : PythonSystemSettings L :=
  mkSettings (python_paths_ s) sout serr.

(** [sys.attr("path").attr("insert")(0, dir)]. *)
Definition path_insert_front (dir : string) (path : list string)
  : list string :=
  dir :: path.

(** The part of [PythonSystem::configure] that works on [sys], when its
    imports succeed: the two streams are replaced by loggers built from
    [stdout_] and [stderr_], and every configured path is inserted at the
    front of [sys.path], in the order of [python_paths_]. *)
Definition configure_sys (s : PythonSystemSettings L) (sys : sys_module L)
  : sys_module L :=
  let sys1 := mkSys (Some (mkLogger (stdout_ s) [])) (sys_stderr sys)
                (sys_path sys) in
  let sys2 := mkSys (sys_stdout sys1) (Some (mkLogger (stderr_ s) []))
                (sys_path sys1) in
  foldl (λ sys path,
           mkSys (sys_stdout sys) (sys_stderr sys)
             (path_insert_front path (sys_path sys)))
        sys2 (python_paths_ s).

End Settings.

(** ** Construction of [PythonSystem] *)

(** What a constructor run does to the process, in order. *)
Inductive init_action :=
| PyImport_AppendInittab_entityx
| Py_Initialize
| init_entityx.

#[global] Instance init_action_eq_dec : EqDecision init_action.
Proof. solve_decision. Defined.

(** The static [PythonSystem::initialized_] and the record of what ran. *)
Record process := mkProcess {
  initialized_ : bool;
  ran_ : list init_action
}.

Definition run_action (a : init_action) (p : process) : process :=
  mkProcess (initialized_ p) (ran_ p ++ [a]).

(** [initialize_python_module()].  The call of [PyImport_AppendInittab] is
    the argument of [assert]: with [NDEBUG] defined the preprocessor removes
    it and the function does nothing; otherwise the call runs, and the
    process aborts ([None]) when it returns -1.  [appended] says whether the
    call succeeds. *)
Definition initialize_python_module (ndebug appended : bool) (p : process)
  : option process :=
  if ndebug then Some p
  else if appended then Some (run_action PyImport_AppendInittab_entityx p)
       else None.

(** [PythonSystem::PythonSystem(EntityManager&)]. *)
Definition PythonSystem_construct (ndebug appended : bool) (p : process)
  : option process :=
  match (if negb (initialized_ p)
         then initialize_python_module ndebug appended p
         else Some p) with
  | None => None
  | Some p1 =>
      let p2 := run_action Py_Initialize p1 in
      Some (if negb (initialized_ p2)
            then mkProcess true (ran_ (run_action init_entityx p2))
            else p2)
  end.

(** [n] constructors, one after the other, in one process. *)
Fixpoint construct_many (ndebug appended : bool) (n : nat) (p : process)
  : option process :=
  match n with
  | 0 => Some p
  | S n =>
      match PythonSystem_construct ndebug appended p with
      | None => None
      | Some p1 => construct_many ndebug appended n p1
      end
  end.

Definition fresh_process : process := mkProcess false [].

(** ** [EntityToPythonEntity] and the test's [CollisionEventProxy] *)

(** [struct CollisionEvent { Entity a, b; }] of the test suite. *)
Record CollisionEvent := mkCollision {
  collision_a : Entity;
  collision_b : Entity
}.

Section Conversions.
Context {P : Python}.

(** [EntityToPythonEntity::convert(entity)]: the script object of the
    entity; the [assert] fails for an entity without a [PythonScript]. *)
Definition EntityToPythonEntity_convert (entity : Entity)
  : M P (py_object P) :=
  python <- Entity_component entity ;;
  valid <- gets (λ w, handle_valid (em_ w) python) ;;
  if valid
  then script <- deref python ;; ret (object script)
  else throw assertion_failed.

(** The body of the loop of [CollisionEventProxy::receive]; [event] is the
    native event and [py_event] what boost::python hands to the handler
    for it. *)
Definition Collision_deliver (event : CollisionEvent) (py_event : py_object P)
    (entity : Entity) : M P unit :=
  if bool_decide (entity = collision_a event)
     || bool_decide (entity = collision_b event)
  then py_entity <- Entity_component entity ;;
       script <- deref py_entity ;;
       call_method (object script) "on_collision" [py_event] ;;;
       ret tt
  else ret tt.

(** [CollisionEventProxy::receive(const CollisionEvent &)]. *)
Definition Collision_receive (proxy : nat) (event : CollisionEvent)
    (py_event : py_object P) : M P unit :=
  this <- proxy_at proxy ;;
  for_each (entities this) (Collision_deliver event py_event).

(** [CollisionEventProxy() : PythonEventProxy("on_collision")]. *)
Definition CollisionEventProxy_new : PythonEventProxy P :=
  PythonEventProxy_new "on_collision".

(** The pointers of [event_proxies_] all have a target, and each proxy is
    listed once. *)
Definition proxies_wf (w : world P) : Prop :=
  NoDup (event_proxies_ w) ∧
  ∀ p, p ∈ event_proxies_ w → p < length (proxy_heap w).

(** The participants of a collision among the receivers, in list order. *)
Definition participants (event : CollisionEvent) (l : list Entity)
  : list Entity :=
  filter (λ e, e = collision_a event ∨ e = collision_b event) l.

End Conversions.

(** ** [__repr__] of entities and ids *)

(** [repr << "<Entity " << index << "." << version << ">"]: the two numbers
    are written in decimal. *)
Definition PythonEntity_repr (entity : Entity) : string :=
  "<Entity " +:+ pretty (index entity) +:+ "." +:+ pretty (version entity)
  +:+ ">".

Definition Entity_Id_repr (id : Id) : string :=
  "<Entity::Id " +:+ pretty (index id) +:+ "." +:+ pretty (version id)
  +:+ ">".

(** Every character of the string satisfies [Q]. *)
Fixpoint string_Forall (Q : ascii → Prop) (s : string) : Prop :=
  match s with
  | EmptyString => True
  | String c rest => Q c ∧ string_Forall Q rest
  end.

(** ** More concrete inputs *)

Module Scenes.
Import Toy.

(** The fixture of the test suite: one [CollisionEventProxy], and three
    scripted entities. *)
Definition arena : world interp :=
  snd ((p <- make_shared CollisionEventProxy_new ;;
        add_event_proxy p ;;;
        spawn "Player" [] ;;; spawn "Player" [] ;;; spawn "Player" [])
         empty_world).


(** Characters of a string literal, for the logger. *)
Definition chars (s : string) : list ascii := String.list_ascii_of_string s.

End Scenes.

(** * Properties *)

(** ** Runs on concrete inputs *)

Example populated_registrations :
  registered Toy.populated 0 = [Toy.e0; Toy.e1] ∧
  registered Toy.populated 1 = [Toy.e0; Toy.e1].
Proof. split; reflexivity. Qed.

Example populated_objects :
  object <$> get_component (em_ Toy.populated) Toy.e1 =
  Some (Toy.Instance "Player" Toy.e1 [Toy.Float 4; Toy.Float 5]).
Proof. reflexivity. Qed.

Example populated_update :
  let r := PythonSystem_update (P := Toy.interp) 7 Toy.populated in
  r.1 = Ok tt ∧
  Toy.ran (python r.2) = [(Toy.e1, "update"); (Toy.e2, "update")] ∧
  Toy.removed (python r.2) = [(Toy.e0, "on_tick")].
Proof. vm_compute. auto. Qed.

(** ** Receiver lists *)

Lemma erase_first_absent (e : Entity) (l : list Entity) :
  e ∉ l → erase_first e l = l.
Proof.
  induction l as [|i rest IH]; simpl; [done|].
  intros Hn. apply not_elem_of_cons in Hn as [Hne Hrest].
  destruct (decide (e = i)); [done|]. by rewrite IH.
Qed.

Lemma erase_first_subseteq (e x : Entity) (l : list Entity) :
  x ∈ erase_first e l → x ∈ l.
Proof.
  induction l as [|i rest IH]; simpl; [done|].
  destruct (decide (e = i)); rewrite !elem_of_cons; [by right|].
  intros [->|Hin]; [by left | right; by apply IH].
Qed.

Lemma erase_first_NoDup (e : Entity) (l : list Entity) :
  NoDup l → NoDup (erase_first e l) ∧ e ∉ erase_first e l.
Proof.
  induction l as [|i rest IH]; simpl.
  - split; [constructor | apply not_elem_of_nil].
  - intros Hnd. apply NoDup_cons in Hnd as [Hi Hrest].
    destruct (decide (e = i)) as [->|Hne]; [done|].
    destruct (IH Hrest) as [IH1 IH2]. split.
    + apply NoDup_cons. split; [|done].
      intros Hin. by apply Hi, (erase_first_subseteq e).
    + by apply not_elem_of_cons.
Qed.

Lemma push_back_NoDup (e : Entity) (l : list Entity) :
  NoDup l → e ∉ l → NoDup (push_back e l).
Proof.
  intros Hnd Hn. unfold push_back. apply NoDup_app.
  split; [done|]. split; [|apply NoDup_singleton].
  intros x Hx ->%list_elem_of_singleton. done.
Qed.

Lemma unpack_args_app {P : Python} (pack acc : list (py_object P)) :
  unpack_args pack acc = acc ++ pack.
Proof.
  revert acc. induction pack as [|a rest IH]; intros acc; simpl.
  - by rewrite app_nil_r.
  - by rewrite IH, <- app_assoc.
Qed.

(** ** Loops *)

Lemma for_each_app {P A} (l1 l2 : list A) (body : A → M P unit) (w : world P) :
  for_each (l1 ++ l2) body w =
  match for_each l1 body w with
  | (Ok _, w1) => for_each l2 body w1
  | (Throw f, w1) => (Throw f, w1)
  end.
Proof.
  revert w. induction l1 as [|x rest IH]; intros w; simpl; [done|].
  unfold bind. destruct (body x w) as [[[]|f] w1]; [apply IH | done].
Qed.

(** ** The registration loop of [receive(ComponentAddedEvent)] *)

Section Registration.
Context {P : Python}.
Implicit Types (w : world P) (ev : ComponentAddedEvent) (e : Entity).

Lemma registered_proxy_update w (f : PythonEventProxy P → PythonEventProxy P)
    (p q : nat) :
  registered (with_proxy_heap (alter f p (proxy_heap w)) w) q =
  if decide (p = q)
  then match proxy_heap w !! p with
       | Some this => entities (f this)
       | None => []
       end
  else registered w q.
Proof.
  unfold registered; simpl. destruct (decide (p = q)) as [->|Hne].
  - rewrite list_lookup_alter_eq. by destruct (proxy_heap w !! q).
  - by rewrite list_lookup_alter_ne.
Qed.

Lemma register_inv ev (p : nat) w r w' :
  register ev p w = (r, w') →
  (∃ f, r = Throw f ∧ w' = w) ∨
  (∃ this c, r = Ok tt ∧ proxy_heap w !! p = Some this ∧
     handle_arrow (em_ w) (added_component ev) = Some c ∧
     w' = if can_send this (python w) (object c)
          then with_proxy_heap
                 (alter (add_receiver (added_entity ev)) p (proxy_heap w)) w
          else w).
Proof.
  unfold register, bind, proxy_at, deref, gets, proxy_update, modify, ret.
  destruct (proxy_heap w !! p) as [this|]; [|naive_solver].
  destruct (handle_arrow (em_ w) (added_component ev)) as [c|];
    [|naive_solver].
  destruct (can_send this (python w) (object c)) eqn:Hs;
    intros [= <- <-]; right; exists this, c; rewrite Hs; done.
Qed.

(** Whatever the loop's outcome, it touches nothing but the receiver lists. *)
Lemma register_loop_frame ev (ps : list nat) w :
  let w' := (for_each ps (register ev) w).2 in
  python w' = python w ∧ em_ w' = em_ w ∧
  event_proxies_ w' = event_proxies_ w ∧ calls w' = calls w ∧
  printed w' = printed w ∧
  (∀ q, q ∉ ps → proxy_heap w' !! q = proxy_heap w !! q).
Proof.
  revert w. induction ps as [|p ps IH]; intros w; simpl; [done|].
  unfold bind. destruct (register ev p w) as [r w1] eqn:Hr.
  apply register_inv in Hr as [(f & -> & ->)|(this & c & -> & Hp & Hd & ->)].
  { simpl. repeat split; done. }
  specialize (IH (if can_send this (python w) (object c)
    then with_proxy_heap
           (alter (add_receiver (added_entity ev)) p (proxy_heap w)) w
    else w)).
  destruct (can_send this (python w) (object c)); simpl in *.
  - destruct IH as (-> & -> & -> & -> & -> & IH). repeat split; try done.
    intros q [Hq Hqs]%not_elem_of_cons. rewrite (IH q Hqs).
    simpl. by rewrite list_lookup_alter_ne.
  - destruct IH as (-> & -> & -> & -> & -> & IH). repeat split; try done.
    intros q [Hq Hqs]%not_elem_of_cons. by apply IH.
Qed.

Lemma register_loop_any ev (ps : list nat) w (q : nat) :
  NoDup ps →
  let w' := (for_each ps (register ev) w).2 in
  registered w' q = registered w q ∨
  (q ∈ ps ∧ registered w' q = registered w q ++ [added_entity ev]).
Proof.
  revert w. induction ps as [|p ps IH]; intros w Hnd; simpl; [by left|].
  apply NoDup_cons in Hnd as [Hp Hnd].
  unfold bind. destruct (register ev p w) as [r w1] eqn:Hr.
  apply register_inv in Hr as [(f & -> & ->)|(this & c & -> & Hh & Hd & ->)].
  { by left. }
  destruct (can_send this (python w) (object c)).
  - pose proof (register_loop_frame ev ps (with_proxy_heap
      (alter (add_receiver (added_entity ev)) p (proxy_heap w)) w)) as Hf.
    specialize (IH (with_proxy_heap
      (alter (add_receiver (added_entity ev)) p (proxy_heap w)) w) Hnd).
    simpl in *. destruct Hf as (_ & _ & _ & _ & _ & Hf).
    rewrite registered_proxy_update in IH.
    destruct (decide (p = q)) as [->|Hne].
    + right. split; [apply elem_of_cons; by left|].
      unfold registered at 1. rewrite (Hf q Hp). simpl.
      rewrite list_lookup_alter_eq. unfold registered. by rewrite Hh.
    + destruct IH as [IH|[Hq IH]]; [by left|].
      right. split; [apply elem_of_cons; by right | done].
  - destruct (IH w Hnd) as [IH'|[Hq IH']]; [by left|].
    right. split; [apply elem_of_cons; by right | done].
Qed.

Lemma register_loop_Ok ev (ps : list nat) w w' (q : nat) :
  NoDup ps → for_each ps (register ev) w = (Ok tt, w') → q ∈ ps →
  ∃ this c, proxy_heap w !! q = Some this ∧
    handle_arrow (em_ w) (added_component ev) = Some c ∧
    registered w' q =
      if can_send this (python w) (object c)
      then registered w q ++ [added_entity ev] else registered w q.
Proof.
  revert w. induction ps as [|p ps IH]; intros w Hnd Hrun Hq.
  { by apply elem_of_nil in Hq. }
  apply NoDup_cons in Hnd as [Hp Hnd]. simpl in Hrun. unfold bind in Hrun.
  destruct (register ev p w) as [r w1] eqn:Hr.
  apply register_inv in Hr as [(f & -> & ->)|(this & c & -> & Hh & Hd & Hw1)];
    [done|].
  pose proof (register_loop_frame ev ps w1) as Hf. rewrite Hrun in Hf.
  simpl in Hf. destruct Hf as (Hpy & Hem & _ & _ & _ & Hf).
  assert (python w1 = python w ∧ em_ w1 = em_ w) as [Hpy1 Hem1].
  { subst w1. by destruct (can_send this (python w) (object c)). }
  apply elem_of_cons in Hq as [->|Hq].
  - exists this, c. split_and!; [done..|].
    unfold registered at 1. rewrite (Hf p Hp). subst w1.
    destruct (can_send this (python w) (object c)); [|done].
    simpl. rewrite list_lookup_alter_eq. unfold registered. by rewrite Hh.
  - assert (p ≠ q) as Hne by (intros ->; done).
    destruct (IH w1 Hnd Hrun Hq) as (this1 & c1 & Hh1 & Hd1 & Hreg).
    exists this1, c1. rewrite Hpy1, Hem1 in *. split_and!; [|done|].
    + subst w1. destruct (can_send this (python w) (object c)); [|done].
      simpl in Hh1. by rewrite list_lookup_alter_ne in Hh1.
    + rewrite Hreg. assert (registered w1 q = registered w q) as ->; [|done].
      subst w1. destruct (can_send this (python w) (object c)); [|done].
      rewrite registered_proxy_update. by destruct (decide (p = q)).
Qed.

End Registration.

(** ** The unregistration loop of [receive(EntityDestroyedEvent)] *)

Section Unregistration.
Context {P : Python}.
Implicit Types (w : world P) (e : Entity).

Lemma registered_delete_receiver w e (p : nat) :
  registered (with_proxy_heap
    (alter (delete_receiver e) p (proxy_heap w)) w) p =
  erase_first e (registered w p).
Proof.
  rewrite registered_proxy_update. destruct (decide (p = p)); [|done].
  unfold registered. by destruct (proxy_heap w !! p).
Qed.

Lemma unregister_loop e (ps : list nat) w :
  ∃ w', for_each ps (λ p, proxy_update p (delete_receiver e)) w = (Ok tt, w') ∧
    python w' = python w ∧ em_ w' = em_ w ∧
    event_proxies_ w' = event_proxies_ w ∧ calls w' = calls w ∧
    printed w' = printed w ∧
    (∀ q, q ∉ ps → registered w' q = registered w q) ∧
    (∀ q x, x ∈ registered w' q → x ∈ registered w q) ∧
    (∀ q, NoDup (registered w q) → NoDup (registered w' q)) ∧
    (∀ q, q ∈ ps → NoDup (registered w q) → e ∉ registered w' q).
Proof.
  revert w. induction ps as [|p ps IH]; intros w; simpl.
  { exists w. split_and!; try done. intros q Hq. by apply elem_of_nil in Hq. }
  unfold bind, proxy_update, modify at 1.
  set (w1 := with_proxy_heap (alter (delete_receiver e) p (proxy_heap w)) w).
  destruct (IH w1) as
    (w' & Hrun & Hpy & Hem & Hev & Hc & Hpr & Hout & Hsub & Hnd & Hgone).
  assert (∀ q, q ≠ p → registered w1 q = registered w q) as Hother.
  { intros q Hq. unfold w1. rewrite registered_proxy_update.
    destruct (decide (p = q)); [by subst|done]. }
  assert (registered w1 p = erase_first e (registered w p)) as Hp
    by apply registered_delete_receiver.
  exists w'. split_and!; try done.
  - intros q [Hq Hqs]%not_elem_of_cons. rewrite (Hout q Hqs). by apply Hother.
  - intros q x Hx%Hsub. destruct (decide (q = p)) as [->|Hq].
    + rewrite Hp in Hx. by apply erase_first_subseteq in Hx.
    + by rewrite (Hother q Hq) in Hx.
  - intros q Hq. apply Hnd. destruct (decide (q = p)) as [->|Hqp].
    + rewrite Hp. by apply erase_first_NoDup.
    + by rewrite (Hother q Hqp).
  - intros q Hq Hq'. destruct (decide (q = p)) as [->|Hqp].
    + intros Hin%Hsub. rewrite Hp in Hin.
      by apply (erase_first_NoDup e) in Hq' as [_ ?].
    + apply elem_of_cons in Hq as [->|Hq]; [done|].
      apply Hgone; [done|]. by rewrite (Hother q Hqp).
Qed.

End Unregistration.

(** ** Realization *)

Section Realization.
Context {P : Python}.
Implicit Types (w : world P) (ev : ComponentAddedEvent).

Lemma realize_Ok_inv ev w w' :
  realize ev w = (Ok tt, w') →
  ∃ c m st1 k factory o st2,
    handle_arrow (em_ w) (added_component ev) = Some c ∧
    PyImport_Import P (python w) (module c) = (inl m, st1) ∧
    PyObject_GetAttrString P st1 m (cls c) = inl k ∧
    PyObject_GetAttrString P st1 k "_from_raw_entity" = inl factory ∧
    PyObject_Call P st1 factory (Id_to_python P (added_entity ev) :: args c)
      = (inl o, st2) ∧
    w' = realized ev c factory o st2 w.
Proof.
  unfold realize, bind, deref, import, attr, call, set_object, modify,
    lift_result, bind, deref, ret, with_python, with_em, log_call. simpl.
  destruct (handle_arrow (em_ w) (added_component ev)) as [c|] eqn:Hc; [|done].
  destruct (PyImport_Import P (python w) (module c)) as [[m|exc] st1] eqn:Hi;
    simpl; rewrite ?Hc; simpl; [|done].
  destruct (PyObject_GetAttrString P st1 m (cls c)) as [k|exc] eqn:Hk;
    simpl; [|done].
  destruct (PyObject_GetAttrString P st1 k "_from_raw_entity")
    as [factory|exc] eqn:Hf; simpl; rewrite ?Hc; simpl; [|done].
  destruct (decide (length (args c) = 0)) as [Hlen|Hlen]; simpl; rewrite ?Hc;
    simpl.
  - apply nil_length_inv in Hlen.
    destruct (PyObject_Call P st1 factory [Id_to_python P (added_entity ev)])
      as [[o|exc] st2] eqn:Hcall; simpl; rewrite ?Hc; simpl; [|done].
    intros [= <-]. exists c, m, st1, k, factory, o, st2.
    unfold realized. rewrite Hlen in *. done.
  - destruct (PyObject_Call P st1 factory
        (Id_to_python P (added_entity ev) :: args c))
      as [[o|exc] st2] eqn:Hcall; simpl; rewrite ?Hc; simpl; [|done].
    intros [= <-]. exists c, m, st1, k, factory, o, st2. done.
Qed.

Lemma realize_Ok ev w c m st1 k factory o st2 :
  handle_arrow (em_ w) (added_component ev) = Some c →
  PyImport_Import P (python w) (module c) = (inl m, st1) →
  PyObject_GetAttrString P st1 m (cls c) = inl k →
  PyObject_GetAttrString P st1 k "_from_raw_entity" = inl factory →
  PyObject_Call P st1 factory (Id_to_python P (added_entity ev) :: args c)
    = (inl o, st2) →
  realize ev w = (Ok tt, realized ev c factory o st2 w).
Proof.
  intros Hc Hi Hk Hf Hcall.
  unfold realize, bind, deref, import, attr, call, set_object, modify,
    lift_result, bind, deref, ret, with_python, with_em, log_call. simpl.
  rewrite Hc, Hi. simpl. rewrite Hc. simpl. rewrite Hk. simpl.
  rewrite Hf. simpl. rewrite Hc. simpl.
  destruct (decide (length (args c) = 0)) as [Hlen|Hlen]; simpl; rewrite ?Hc;
    simpl.
  - apply nil_length_inv in Hlen. rewrite Hlen in *. rewrite Hcall. simpl.
    rewrite Hc. unfold realized. by rewrite Hlen.
  - rewrite Hcall. simpl. by rewrite Hc.
Qed.

(** Realization, whatever its outcome, leaves the proxies alone. *)
Lemma realize_frame ev w :
  proxy_heap (realize ev w).2 = proxy_heap w ∧
  event_proxies_ (realize ev w).2 = event_proxies_ w.
Proof.
  unfold realize, bind, deref, import, attr, call, set_object, modify,
    lift_result, bind, deref, ret, with_python, with_em, log_call. simpl.
  repeat (case_match; simpl in *; simplify_eq; try done).
Qed.

Lemma realize_if_unset_frame ev w :
  proxy_heap (realize_if_unset ev w).2 = proxy_heap w ∧
  event_proxies_ (realize_if_unset ev w).2 = event_proxies_ w.
Proof.
  unfold realize_if_unset, bind, deref, not_object.
  destruct (handle_arrow (em_ w) (added_component ev)); [|done].
  destruct (negb _); [apply realize_frame | done].
Qed.

End Realization.

(** ** Iteration over the scripted entities *)

Section Each.
Context {C : Type}.
Implicit Types (em : EntityManager C) (e : Entity) (c : C).

Lemma each_from_elem (i : nat) (vs : list nat) (cs : list (option C)) e c :
  (e, c) ∈ each_from i vs cs ↔
  i ≤ index e ∧ vs !! (index e - i) = Some (version e) ∧
  cs !! (index e - i) = Some (Some c).
Proof.
  revert i cs. induction vs as [|v vs IH]; intros i cs; simpl.
  { rewrite elem_of_nil. naive_solver. }
  destruct cs as [|[c0|] cs].
  { rewrite elem_of_nil. naive_solver. }
  - rewrite elem_of_cons, IH. split.
    + intros [[= -> ->]|(Hi & Hv & Hc)]; simpl.
      * rewrite Nat.sub_diag. done.
      * replace (index e - i) with (S (index e - S i)) by lia.
        split; [lia|done].
    + intros (Hi & Hv & Hc). destruct (decide (index e = i)) as [Heq|Hne].
      * left. rewrite Heq, Nat.sub_diag in Hv, Hc. simpl in *.
        destruct e; simpl in *. by simplify_eq.
      * right. replace (index e - i) with (S (index e - S i)) in Hv, Hc by lia.
        split; [lia|done].
  - rewrite IH. split.
    + intros (Hi & Hv & Hc).
      replace (index e - i) with (S (index e - S i)) by lia.
      split; [lia|done].
    + intros (Hi & Hv & Hc). destruct (decide (index e = i)) as [Heq|Hne].
      * rewrite Heq, Nat.sub_diag in Hc. done.
      * replace (index e - i) with (S (index e - S i)) in Hv, Hc by lia.
        split; [lia|done].
Qed.

Lemma each_from_NoDup (i : nat) (vs : list nat) (cs : list (option C)) :
  NoDup (each_from i vs cs).*1.
Proof.
  revert i cs. induction vs as [|v vs IH]; intros i cs; simpl.
  { constructor. }
  destruct cs as [|[c0|] cs]; [constructor| |apply IH].
  simpl. apply NoDup_cons. split; [|apply IH].
  intros ([e c] & Heq & Hin)%list_elem_of_fmap. simpl in Heq. subst e.
  apply each_from_elem in Hin as [Hle _]. simpl in Hle. lia.
Qed.

(** The entities [each] visits are those that are valid and hold a
    component, each of them once. *)
Lemma each_elem em e :
  e ∈ (each em).*1 ↔ em_valid em e = true ∧ has_component em e = true.
Proof.
  unfold em_valid, has_component, each. rewrite bool_decide_eq_true. split.
  - intros ([e' c] & Heq & Hin)%list_elem_of_fmap. simpl in Heq. subst e'.
    apply each_from_elem in Hin as (_ & Hv & Hc).
    rewrite Nat.sub_0_r in Hv, Hc. by rewrite Hc.
  - intros [Hv Hc].
    destruct (components_ em !! index e) as [[c|]|] eqn:Hl; try done.
    apply list_elem_of_fmap. exists (e, c). split; [done|].
    apply each_from_elem. rewrite Nat.sub_0_r. split; [lia|done].
Qed.

Lemma handle_arrow_component em e :
  handle_arrow em (component em e) = get_component em e.
Proof.
  unfold handle_arrow, get_component.
  by destruct (handle_valid em (component em e)).
Qed.

Lemma get_component_valid em e c :
  get_component em e = Some c →
  em_valid em e = true ∧ has_component em e = true.
Proof.
  unfold get_component, component, handle_valid.
  destruct (has_component em e) eqn:Hh; simpl; [|done].
  rewrite Hh. destruct (em_valid em e); simpl; done.
Qed.

End Each.

(** ** The update pass and the broadcast pass *)

Section Passes.
Context {P : Python}.
Implicit Types (w : world P) (e : Entity) (dt : TimeDelta P).

Lemma update_entity_eq dt (x : Entity * PythonScript P) w :
  update_entity dt x w =
  match PyObject_GetAttrString P (python w) (object x.2) "update" with
  | inr exc => (Throw (error_already_set exc), log_printed exc w)
  | inl f =>
      match PyObject_Call P (python w) f [TimeDelta_to_python P dt] with
      | (inl v, st) => (Ok tt, with_python st (log_call (sent_update dt x) w))
      | (inr exc, st) =>
          (Throw (error_already_set exc),
           log_printed exc (with_python st (log_call (sent_update dt x) w)))
      end
  end.
Proof.
  destruct x as [e c].
  unfold update_entity, try_catch, bind, call_method, lift_result, ret,
    PyErr_Print, PyErr_Clear, throw, modify, sent_update. simpl.
  destruct (PyObject_GetAttrString P (python w) (object c) "update"); [|done].
  by destruct (PyObject_Call P (python w) _ _) as [[v|exc] st].
Qed.

Lemma update_loop_Ok dt (l : list (Entity * PythonScript P)) w w' :
  for_each l (update_entity dt) w = (Ok tt, w') →
  em_ w' = em_ w ∧ proxy_heap w' = proxy_heap w ∧
  event_proxies_ w' = event_proxies_ w ∧ printed w' = printed w ∧
  calls w' = calls w ++ map (sent_update dt) l.
Proof.
  revert w. induction l as [|x l IH]; intros w; simpl.
  { intros [= <-]. by rewrite app_nil_r. }
  unfold bind. rewrite update_entity_eq.
  destruct (PyObject_GetAttrString P (python w) (object x.2) "update");
    [|done].
  destruct (PyObject_Call P (python w) _ _) as [[v|exc] st]; [|done].
  intros (-> & -> & -> & -> & ->)%IH. simpl.
  by rewrite <- app_assoc.
Qed.

Lemma update_loop_total dt (l : list (Entity * PythonScript P)) w :
  updates_return dt l (python w) ↔
  ∃ w', for_each l (update_entity dt) w = (Ok tt, w').
Proof.
  revert w. induction l as [|x l IH]; intros w; simpl.
  { split; [by exists w | done]. }
  unfold bind. rewrite update_entity_eq. split.
  - intros (f & v & st' & -> & -> & Hrest).
    by apply (IH (with_python st' (log_call (sent_update dt x) w))).
  - destruct (PyObject_GetAttrString P (python w) (object x.2) "update")
      as [f|exc]; [|by intros [w' ?]].
    destruct (PyObject_Call P (python w) f _) as [[v|exc] st] eqn:Hcall;
      [|by intros [w' ?]].
    intros Hrun. exists f, v, st. split_and!; [done..|].
    by apply (IH (with_python st (log_call (sent_update dt x) w))).
Qed.

Lemma Broadcast_deliver_eq (name : string) (event : py_object P) e w :
  Broadcast_deliver name event e w =
  match get_component (em_ w) e with
  | None => (Throw assertion_failed, w)
  | Some c =>
      match PyObject_GetAttrString P (python w) (object c) name with
      | inr exc => (Throw (error_already_set exc), w)
      | inl f =>
          match PyObject_Call P (python w) f [event] with
          | (inl v, st) =>
              (Ok tt, with_python st (log_call (sent_event name event c) w))
          | (inr exc, st) =>
              (Throw (error_already_set exc),
               with_python st (log_call (sent_event name event c) w))
          end
      end
  end.
Proof.
  unfold Broadcast_deliver, bind, Entity_component, deref, call_method,
    lift_result, ret, sent_event.
  destruct (em_valid (em_ w) e) eqn:Hv.
  - rewrite handle_arrow_component.
    destruct (get_component (em_ w) e) as [c|]; [|done].
    destruct (PyObject_GetAttrString P (python w) (object c) name);
      simpl; [|done].
    by destruct (PyObject_Call P (python w) _ _) as [[v|exc] st].
  - destruct (get_component (em_ w) e) as [c|] eqn:Hc; [|done].
    apply get_component_valid in Hc as [Hv' _]. congruence.
Qed.

Lemma deliver_loop_Ok (name : string) (event : py_object P)
    (l : list Entity) w w' :
  for_each l (Broadcast_deliver name event) w = (Ok tt, w') →
  em_ w' = em_ w ∧ proxy_heap w' = proxy_heap w ∧
  event_proxies_ w' = event_proxies_ w ∧ printed w' = printed w ∧
  ∃ cs, Forall2 (λ e c, get_component (em_ w) e = Some c) l cs ∧
    calls w' = calls w ++ map (sent_event name event) cs.
Proof.
  revert w. induction l as [|e l IH]; intros w; simpl.
  { intros [= <-]. split_and!; try done. exists []. split; [constructor|].
    by rewrite app_nil_r. }
  unfold bind. rewrite Broadcast_deliver_eq.
  destruct (get_component (em_ w) e) as [c|] eqn:Hc; [|done].
  destruct (PyObject_GetAttrString P (python w) (object c) name); [|done].
  destruct (PyObject_Call P (python w) _ _) as [[v|exc] st]; [|done].
  intros (-> & -> & -> & -> & cs & Hcs & ->)%IH. simpl.
  split_and!; try done. exists (c :: cs). split; [by constructor|].
  simpl. by rewrite <- app_assoc.
Qed.

End Passes.

(** ** [get_component] *)

Section Lookup.
Context {C : Type}.
Implicit Types (em : EntityManager C) (id : Id) (c : C).

Lemma get_component_None em id :
  get_component em id = None ↔
  em_valid em id = false ∨ has_component em id = false.
Proof.
  unfold get_component, component, handle_valid, handle_get, has_component.
  destruct (components_ em !! index id) as [[c|]|] eqn:Hl; simpl;
    rewrite ?Hl; simpl; [|naive_solver..].
  destruct (em_valid em id); simpl; rewrite ?Hl; naive_solver.
Qed.

(** C10. For every entity id and component type, [get_component] returns the
    null pointer -- [None] on the script side -- when the entity has no
    component of that type attached; it does not fail. *)
Theorem get_component_absent em id :
  has_component em id = false → get_component em id = None.
Proof. intros Hh. apply get_component_None. by right. Qed.

Lemma get_component_store em id c :
  em_valid em id = true → index id < length (components_ em) →
  get_component (store id c em) id = Some c.
Proof.
  intros Hv Hlt.
  unfold get_component, component, handle_valid, handle_get, has_component,
    store, em_valid in *. cbn [components_ entity_version_].
  rewrite list_lookup_insert_eq by done. cbn [manager_ id_ negb andb].
  rewrite Hv. cbn [components_ negb andb].
  by rewrite list_lookup_insert_eq.
Qed.

Lemma handle_arrow_set em (h : ComponentHandle) c c' :
  handle_arrow em h = Some c → handle_arrow (handle_set h c' em) h = Some c'.
Proof.
  unfold handle_arrow, handle_valid, handle_get, has_component, handle_set,
    em_valid. cbn [components_ entity_version_].
  destruct (components_ em !! index (id_ h)) as [[c0|]|] eqn:Hl;
    rewrite ?andb_false_r; try done.
  apply lookup_lt_Some in Hl.
  rewrite list_lookup_insert_eq by done. rewrite !andb_true_r.
  by destruct (manager_ h && _).
Qed.

Lemma each_get_component em (e : Entity) c :
  (e, c) ∈ each em ↔ get_component em e = Some c.
Proof.
  unfold each. rewrite each_from_elem, Nat.sub_0_r.
  unfold get_component, component, handle_valid, handle_get, has_component,
    em_valid.
  destruct (components_ em !! index e) as [[c0|]|] eqn:Hl; simpl;
    rewrite ?Hl; simpl; [|naive_solver..].
  case_bool_decide as Hv; simpl; rewrite ?Hl; simpl; [|naive_solver].
  split; [naive_solver|]. intros [= ->]. split; [lia|done].
Qed.

End Lookup.

(** ** Receiver registration *)

Section Proxies.
Context {P : Python}.
Implicit Types (w : world P) (ev : ComponentAddedEvent) (e : Entity)
  (proxy : PythonEventProxy P).

(** C4, as the code has it.  [add_receiver] appends the entity to the end of
    the receiver list whether or not it is there already, so registering a
    registered entity leaves it in the list twice; [delete_receiver] of an
    entity that is not in the list leaves the proxy as it was. *)
Theorem receiver_list_operations proxy e :
  entities (add_receiver e proxy) = entities proxy ++ [e] ∧
  (e ∈ entities proxy → ¬ NoDup (entities (add_receiver e proxy))) ∧
  (e ∉ entities proxy → delete_receiver e proxy = proxy).
Proof.
  split_and!; [done| |].
  - intros Hin (_ & Hdisj & _)%NoDup_app.
    apply (Hdisj e Hin), list_elem_of_singleton. done.
  - intros Hn. unfold delete_receiver.
    rewrite erase_first_absent by done. by destruct proxy.
Qed.


Lemma realize_if_unset_unset ev w c :
  handle_arrow (em_ w) (added_component ev) = Some c →
  PyObject_IsTrue P (python w) (object c) = false →
  realize_if_unset ev w = realize ev w.
Proof.
  intros Hc Ht. unfold realize_if_unset, bind, deref, not_object.
  by rewrite Hc, Ht.
Qed.

Lemma realize_if_unset_set ev w c :
  handle_arrow (em_ w) (added_component ev) = Some c →
  PyObject_IsTrue P (python w) (object c) = true →
  realize_if_unset ev w = (Ok tt, w).
Proof.
  intros Hc Ht. unfold realize_if_unset, bind, deref, not_object.
  by rewrite Hc, Ht.
Qed.

Lemma receive_ComponentAdded_eq ev w :
  receive_ComponentAdded ev w =
  match realize_if_unset ev w with
  | (Ok _, w1) => for_each (event_proxies_ w1) (register ev) w1
  | (Throw f, w1) => (Throw f, w1)
  end.
Proof.
  unfold receive_ComponentAdded, bind, gets.
  by destruct (realize_if_unset ev w) as [[[]|f] w1].
Qed.

(** A component that already carries a (true) object is not realized: the
    handler is the registration loop and nothing else. *)
Lemma receive_ComponentAdded_realized ev w c :
  handle_arrow (em_ w) (added_component ev) = Some c →
  PyObject_IsTrue P (python w) (object c) = true →
  receive_ComponentAdded ev w = for_each (event_proxies_ w) (register ev) w.
Proof.
  intros Hc Ht. rewrite receive_ComponentAdded_eq.
  by rewrite (realize_if_unset_set ev w c).
Qed.







Lemma after_EntityDestroyed (event : EntityDestroyedEvent) w :
  let w' := after (EntityDestroyed event) w in
  event_proxies_ w' = event_proxies_ w ∧
  (duplicate_free w → duplicate_free w' ∧
                      unregistered w' (destroyed_entity event)).
Proof.
  unfold after, receive, receive_EntityDestroyed, bind, gets. simpl.
  destruct (unregister_loop (destroyed_entity event) (event_proxies_ w) w)
    as (w' & -> & _ & _ & Hev & _ & _ & _ & _ & Hnd & Hgone).
  simpl. split; [done|]. intros Hdf. split.
  - intros p Hp. rewrite Hev in Hp. by apply Hnd, Hdf.
  - intros p Hp. rewrite Hev in Hp. by apply Hgone, Hdf.
Qed.

Lemma after_ComponentAdded ev w :
  let w' := after (ComponentAdded ev) w in
  event_proxies_ w' = event_proxies_ w ∧
  (NoDup (event_proxies_ w) → duplicate_free w →
   unregistered w (added_entity ev) → duplicate_free w').
Proof.
  unfold after, receive. rewrite receive_ComponentAdded_eq.
  pose proof (realize_if_unset_frame ev w) as [Hheap Hev].
  destruct (realize_if_unset ev w) as [[[]|f] w1]; simpl in *.
  - pose proof (register_loop_frame ev (event_proxies_ w1) w1) as Hf.
    simpl in Hf. destruct Hf as (_ & _ & Hev' & _).
    split; [congruence|]. intros Hnd Hdf Hun p Hp.
    rewrite Hev', Hev in Hp.
    assert (registered w1 p = registered w p) as Hsame
      by (unfold registered; by rewrite Hheap).
    rewrite <- Hev in Hnd.
    destruct (register_loop_any ev (event_proxies_ w1) w1 p Hnd)
      as [->|[_ ->]]; rewrite Hsame.
    + by apply Hdf.
    + apply push_back_NoDup; [by apply Hdf | by apply Hun].
  - split; [done|]. intros _ Hdf _ p Hp. rewrite Hev in Hp.
    unfold registered. rewrite Hheap. by apply Hdf.
Qed.

Lemma after_event_proxies (n : notification) w :
  event_proxies_ (after n w) = event_proxies_ w.
Proof.
  destruct n as [ev|ev];
    [apply after_ComponentAdded | apply after_EntityDestroyed].
Qed.

Lemma after_all_duplicate_free (ns : list notification) w :
  NoDup (event_proxies_ w) → duplicate_free w → added_once ns w →
  duplicate_free (after_all ns w).
Proof.
  revert w. induction ns as [|n ns IH]; intros w Hnd Hdf Hok; [done|].
  simpl in *. destruct Hok as [Hn Hrest]. apply IH; [|clear IH|done].
  { by rewrite after_event_proxies. }
  destruct n as [ev|ev].
  - by apply after_ComponentAdded.
  - by apply after_EntityDestroyed.
Qed.

(** C3, as the code has it.  Starting from receiver lists without
    duplicates, and along any sequence of notifications in which a
    "component added" only arrives for an entity that is in no receiver list
    at that point, every known proxy's receiver list stays free of
    duplicates, and after an "entity destroyed" notification the destroyed
    entity is in no known proxy's list.  Each proxy is listed once in
    [event_proxies_]. *)
Theorem registration_lists_duplicate_free (ns : list notification) w :
  NoDup (event_proxies_ w) → duplicate_free w → added_once ns w →
  duplicate_free (after_all ns w) ∧
  ∀ e, unregistered
         (after (EntityDestroyed (mkDestroyed e)) (after_all ns w)) e.
Proof.
  intros Hnd Hdf Hok.
  pose proof (after_all_duplicate_free ns w Hnd Hdf Hok) as Hdf'.
  split; [done|]. intros e.
  by apply (after_EntityDestroyed (mkDestroyed e) (after_all ns w)).
Qed.

End Proxies.

(** ** Realization on "component added" *)

Section Lifecycle.
Context {P : Python}.
Implicit Types (w : world P) (ev : ComponentAddedEvent) (e : Entity)
  (dt : TimeDelta P).

Lemma handle_arrow_true {C} (em : EntityManager C) (id : Id) :
  handle_arrow em (mkHandle true id) = get_component em id.
Proof.
  rewrite <- handle_arrow_component. unfold component.
  destruct (has_component em id) eqn:Hh; [done|].
  unfold handle_arrow, handle_valid. simpl.
  by rewrite Hh, andb_false_r.
Qed.

(** The handler on a component whose object is unset: when it returns, the
    module and the class have been resolved, the factory has been called
    with the entity id and the captured arguments, and the component holds
    what the factory returned. *)
Lemma receive_ComponentAdded_realizes ev w w' (m k : string)
    (pack : list (py_object P)) :
  handle_arrow (em_ w) (added_component ev)
    = Some (mkPythonScript (Py_None P) pack m k) →
  receive_ComponentAdded ev w = (Ok tt, w') →
  ∃ md st1 kl factory o st2,
    PyImport_Import P (python w) m = (inl md, st1) ∧
    PyObject_GetAttrString P st1 md k = inl kl ∧
    PyObject_GetAttrString P st1 kl "_from_raw_entity" = inl factory ∧
    PyObject_Call P st1 factory (Id_to_python P (added_entity ev) :: pack)
      = (inl o, st2) ∧
    handle_arrow (em_ w') (added_component ev)
      = Some (mkPythonScript o pack m k).
Proof.
  set (c := mkPythonScript (Py_None P) pack m k). intros Hc.
  rewrite receive_ComponentAdded_eq.
  rewrite (realize_if_unset_unset _ w c Hc) by apply None_is_false.
  destruct (realize ev w) as [[[]|f] w1] eqn:Hr; [|done].
  apply realize_Ok_inv in Hr
    as (c' & md & st1 & kl & factory & o & st2 & Hc' & Hi & Hk & Hf & Hcall & ->).
  rewrite Hc in Hc'. injection Hc' as <-.
  cbn [module cls args c] in *.
  match goal with
  | |- context [for_each ?ps (register ?ev) ?w1] =>
      pose proof (register_loop_frame ev ps w1) as Hfr;
      destruct (for_each ps (register ev) w1) as [[[]|f] w2]; [|done]
  end.
  simpl in Hfr. destruct Hfr as (_ & Hem & _).
  intros [= <-].
  exists md, st1, kl, factory, o, st2. split_and!; [done..|].
  rewrite Hem. simpl. by apply (handle_arrow_set _ _ c).
Qed.

(** C1.  For a valid entity and a [PythonScript] built from module, class
    and arguments, with no object of its own: the component as constructed,
    and as it is in the pool once the assignment has stored it, has its
    object unset; the object is set by the bridge's handler of the
    "component added" notification, and when that handler returns the
    module and the class have been resolved and the object is what the
    class's [_from_raw_entity] returned for the entity id followed by the
    captured arguments. *)
Theorem lazy_realization w (id : Id) (m k : string)
    (pack : list (py_object P)) :
  em_valid (em_ w) id = true →
  index id < length (components_ (em_ w)) →
  let c := PythonScript_new m k pack in
  let w0 := (assign_stored id c w).2 in
  object c = Py_None P ∧
  get_component (em_ w0) id = Some (mkPythonScript (Py_None P) pack m k) ∧
  (∀ w', receive_ComponentAdded (mkAdded id (mkHandle true id)) w0
           = (Ok tt, w') →
     ∃ md st1 kl factory o st2,
       PyImport_Import P (python w) m = (inl md, st1) ∧
       PyObject_GetAttrString P st1 md k = inl kl ∧
       PyObject_GetAttrString P st1 kl "_from_raw_entity" = inl factory ∧
       PyObject_Call P st1 factory (Id_to_python P id :: pack)
         = (inl o, st2) ∧
       get_component (em_ w') id = Some (mkPythonScript o pack m k)).
Proof.
  intros Hv Hlt c w0. subst c w0.
  assert (PythonScript_new m k pack = mkPythonScript (Py_None P) pack m k)
    as -> by (unfold PythonScript_new; by rewrite unpack_args_app).
  set (c := mkPythonScript (Py_None P) pack m k).
  set (w0 := (assign_stored id c w).2).
  assert (get_component (em_ w0) id = Some c) as Hc
    by (by apply get_component_store).
  split_and!; [done..|]. intros w' Hrun.
  destruct (receive_ComponentAdded_realizes
              (mkAdded id (mkHandle true id)) w0 w' m k pack)
    as (md & st1 & kl & factory & o & st2 & Hi & Hk & Hf & Hcall & Hget);
    [cbn [added_component]; by rewrite handle_arrow_true|done|].
  cbn [added_component added_entity] in *.
  exists md, st1, kl, factory, o, st2. split_and!; [done..|].
  by rewrite <- handle_arrow_true.
Qed.

(** With the bridge subscribed, [assign] delivers the notification before it
    returns, so the caller of [assign] finds the object set. *)
Lemma assign_realizes w (id : Id) (m k : string)
    (pack : list (py_object P)) h w' :
  em_valid (em_ w) id = true →
  index id < length (components_ (em_ w)) →
  assign id (PythonScript_new m k pack) w = (Ok h, w') →
  ∃ factory o st1 st2,
    PyObject_Call P st1 factory (Id_to_python P id :: pack) = (inl o, st2) ∧
    get_component (em_ w') id = Some (mkPythonScript o pack m k).
Proof.
  intros Hv Hlt.
  assert (PythonScript_new m k pack = mkPythonScript (Py_None P) pack m k)
    as -> by (unfold PythonScript_new; by rewrite unpack_args_app).
  set (c := mkPythonScript (Py_None P) pack m k).
  unfold assign, bind.
  destruct (assign_stored id c w) as [r0 w0] eqn:Hs.
  assert (r0 = Ok tt ∧ w0 = (assign_stored id c w).2) as [-> Hw0]
    by (rewrite Hs; split; [by injection Hs as <- _|done]).
  destruct (receive_ComponentAdded _ w0) as [[[]|f] w1] eqn:Hrun; [|done].
  unfold ret. intros [= <- <-].
  assert (get_component (em_ w0) id = Some c) as Hc
    by (rewrite Hw0; by apply get_component_store).
  destruct (receive_ComponentAdded_realizes
              (mkAdded id (mkHandle true id)) w0 w1 m k pack)
    as (md & st1 & kl & factory & o & st2 & _ & _ & _ & Hcall & Hget);
    [cbn [added_component]; by rewrite handle_arrow_true|done|].
  cbn [added_component added_entity] in *.
  exists factory, o, st1, st2. split; [done|].
  by rewrite <- handle_arrow_true.
Qed.

(** C7. When the bridge realizes a component built from module, class and
    an argument pack, it imports the module, looks the class up in it, and
    calls the class's [_from_raw_entity] with the entity id first and the
    captured arguments after it, in the order they were given; what the
    call returns is stored in the component's [object]. *)
Theorem realization_forwards_arguments ev w (m k : string)
    (pack : list (py_object P)) (md kl factory o : py_object P)
    (st1 st2 : interpreter P) :
  handle_arrow (em_ w) (added_component ev) = Some (PythonScript_new m k pack) →
  PyImport_Import P (python w) m = (inl md, st1) →
  PyObject_GetAttrString P st1 md k = inl kl →
  PyObject_GetAttrString P st1 kl "_from_raw_entity" = inl factory →
  PyObject_Call P st1 factory (Id_to_python P (added_entity ev) :: pack)
    = (inl o, st2) →
  ∃ w1, realize_if_unset ev w = (Ok tt, w1) ∧
    receive_ComponentAdded ev w = for_each (event_proxies_ w) (register ev) w1 ∧
    calls w1 =
      calls w ++ [Called factory (Id_to_python P (added_entity ev) :: pack)] ∧
    python w1 = st2 ∧
    handle_arrow (em_ w1) (added_component ev)
      = Some (mkPythonScript o pack m k).
Proof.
  assert (PythonScript_new m k pack = mkPythonScript (Py_None P) pack m k)
    as -> by (unfold PythonScript_new; by rewrite unpack_args_app).
  set (c := mkPythonScript (Py_None P) pack m k).
  intros Hc Hi Hk Hf Hcall.
  assert (realize_if_unset ev w = (Ok tt, realized ev c factory o st2 w))
    as Hr.
  { rewrite (realize_if_unset_unset ev w c Hc) by apply None_is_false.
    by apply (realize_Ok ev w c md st1 kl). }
  eexists. split; [exact Hr|].
  rewrite receive_ComponentAdded_eq, Hr. split_and!; try done.
  by apply (handle_arrow_set _ _ c).
Qed.

End Lifecycle.

(** ** Delivery and the update pass *)

Section Delivery.
Context {P : Python}.
Implicit Types (w : world P) (e : Entity) (dt : TimeDelta P).

Lemma Broadcast_receive_eq (p : nat) (event : py_object P) w
    (this : PythonEventProxy P) :
  proxy_heap w !! p = Some this →
  Broadcast_receive p event w =
  for_each (entities this) (Broadcast_deliver (handler_name this) event) w.
Proof.
  intros Hthis. unfold Broadcast_receive, bind, proxy_at. by rewrite Hthis.
Qed.

Lemma PythonSystem_update_eq dt w :
  PythonSystem_update dt w = for_each (each (em_ w)) (update_entity dt) w.
Proof. done. Qed.

(** C5, as the code has it.  When the script object of a registered entity
    has no attribute of the proxy's handler name at delivery time, the
    lookup raises; the exception leaves [receive], the entities before that
    one in the receiver list have received the event, and neither that
    entity nor those after it are called. *)
Theorem missing_handler_aborts_delivery (p : nat) (event : py_object P)
    (this : PythonEventProxy P) (pre post : list Entity) e
    (c : PythonScript P) (exc : py_exception P) w w1 :
  proxy_heap w !! p = Some this →
  entities this = pre ++ e :: post →
  for_each pre (Broadcast_deliver (handler_name this) event) w = (Ok tt, w1) →
  get_component (em_ w1) e = Some c →
  PyObject_GetAttrString P (python w1) (object c) (handler_name this)
    = inr exc →
  Broadcast_receive p event w = (Throw (error_already_set exc), w1) ∧
  ∃ cs, Forall2 (λ e c, get_component (em_ w) e = Some c) pre cs ∧
    calls w1 = calls w ++ map (sent_event (handler_name this) event) cs.
Proof.
  intros Hthis Hent Hpre Hc Hattr. split.
  - rewrite (Broadcast_receive_eq p event w this Hthis), Hent, for_each_app.
    rewrite Hpre. simpl. unfold bind.
    by rewrite Broadcast_deliver_eq, Hc, Hattr.
  - by apply deliver_loop_Ok in Hpre as (_ & _ & _ & _ & Hcs).
Qed.

(** C6. When a script's [update] raises during [PythonSystem::update], or a
    script's handler raises during a broadcast delivery, the exception
    leaves the call -- after [PyErr_Print], for [update] -- and the pass
    stops there: the log holds the calls to the entities before the failing
    one and the failing call, once, and none for the entities after it. *)
Theorem handler_error_aborts_pass :
  (∀ dt w w1 (pre post : list (Entity * PythonScript P)) x f exc st,
     each (em_ w) = pre ++ x :: post →
     for_each pre (update_entity dt) w = (Ok tt, w1) →
     PyObject_GetAttrString P (python w1) (object x.2) "update" = inl f →
     PyObject_Call P (python w1) f [TimeDelta_to_python P dt] = (inr exc, st) →
     ∃ w', PythonSystem_update dt w = (Throw (error_already_set exc), w') ∧
       calls w' = calls w ++ map (sent_update dt) (pre ++ [x]) ∧
       printed w' = printed w ++ [exc]) ∧
  (∀ (p : nat) (event : py_object P) (this : PythonEventProxy P)
     (pre post : list Entity) e (c : PythonScript P) f exc st w w1,
     proxy_heap w !! p = Some this →
     entities this = pre ++ e :: post →
     for_each pre (Broadcast_deliver (handler_name this) event) w
       = (Ok tt, w1) →
     get_component (em_ w1) e = Some c →
     PyObject_GetAttrString P (python w1) (object c) (handler_name this)
       = inl f →
     PyObject_Call P (python w1) f [event] = (inr exc, st) →
     ∃ w', Broadcast_receive p event w = (Throw (error_already_set exc), w') ∧
       ∃ cs, Forall2 (λ e c, get_component (em_ w) e = Some c) pre cs ∧
         calls w' =
           calls w ++ map (sent_event (handler_name this) event) (cs ++ [c])).
Proof.
  split.
  - intros dt w w1 pre post x f exc st Heach Hpre Hattr Hcall.
    rewrite PythonSystem_update_eq, Heach, for_each_app, Hpre. simpl.
    unfold bind. rewrite update_entity_eq, Hattr, Hcall.
    apply update_loop_Ok in Hpre as (_ & _ & _ & Hpr & Hcalls).
    eexists. split; [done|]. simpl. rewrite Hcalls, Hpr.
    by rewrite map_app, app_assoc.
  - intros p event this pre post e c f exc st w w1
      Hthis Hent Hpre Hc Hattr Hcall.
    rewrite (Broadcast_receive_eq p event w this Hthis), Hent, for_each_app.
    rewrite Hpre. simpl. unfold bind.
    rewrite Broadcast_deliver_eq, Hc, Hattr, Hcall.
    apply deliver_loop_Ok in Hpre as (_ & _ & _ & _ & cs & Hcs & Hcalls).
    eexists. split; [done|]. exists cs. split; [done|]. simpl.
    by rewrite Hcalls, map_app, app_assoc.
Qed.

(** C9, as the code has it.  For scripts whose [update] does not call back
    into the entity manager: when every script's [update] returns, one call
    of [PythonSystem::update] returns, and the calls it has made are
    [update(dt)] once on the script object of each entity that holds a
    [PythonScript] -- each such entity is visited once -- and nothing else:
    an entity without the component gets no call.  A component whose object
    is still unset is not skipped: the lookup of [update] on [None] raises,
    and the pass stops there, with the entities after it not called. *)
Theorem update_pass_calls dt w :
  (updates_return dt (each (em_ w)) (python w) →
   ∃ w', PythonSystem_update dt w = (Ok tt, w') ∧
     calls w' = calls w ++ map (sent_update dt) (each (em_ w))) ∧
  NoDup (each (em_ w)).*1 ∧
  (∀ e c, (e, c) ∈ each (em_ w) ↔ get_component (em_ w) e = Some c) ∧
  (∀ (pre post : list (Entity * PythonScript P)) x w1,
     each (em_ w) = pre ++ x :: post →
     for_each pre (update_entity dt) w = (Ok tt, w1) →
     object x.2 = Py_None P →
     ∃ exc,
       PythonSystem_update dt w
         = (Throw (error_already_set exc), log_printed exc w1) ∧
       calls w1 = calls w ++ map (sent_update dt) pre).
Proof.
  split_and!.
  - intros [w' Hrun]%update_loop_total. exists w'.
    rewrite PythonSystem_update_eq. split; [done|].
    by apply update_loop_Ok in Hrun as (Hem & Hheap & _ & _ & Hcalls).
  - apply each_from_NoDup.
  - apply each_get_component.
  - intros pre post x w1 Heach Hpre Hnone.
    destruct (None_has_no_update P (python w1)) as [exc Hexc].
    exists exc. rewrite PythonSystem_update_eq, Heach, for_each_app, Hpre.
    simpl. unfold bind. rewrite update_entity_eq, Hnone, Hexc.
    split; [done|]. by apply update_loop_Ok in Hpre as (_ & _ & _ & _ & ?).
Qed.

End Delivery.

(** ** The properties on concrete inputs *)

Section Concrete.
Import Toy.

Lemma get_component_absent_witness :
  get_component (mkEntityManager [1; 1] [] [Some 7; None]) (mkId 1 1) = None.
Proof. apply get_component_absent. reflexivity. Defined.

(** Against C4 as stated: registering a registered entity leaves two
    entries. *)
Lemma add_receiver_duplicates :
  let proxy := add_receiver e0 (PythonEventProxy_new (P := interp) "on_tick") in
  e0 ∈ entities proxy ∧
  entities (add_receiver e0 proxy) = [e0; e0] ∧
  entities (add_receiver e0 proxy) ≠ entities proxy ∧
  ¬ NoDup (entities (add_receiver e0 proxy)).
Proof.
  simpl. split_and!; [apply list_elem_of_singleton; done|done|done|].
  intros [Hin _]%NoDup_cons. apply Hin, list_elem_of_singleton. done.
Qed.

Lemma receiver_list_operations_witness :
  let proxy := add_receiver e0 (PythonEventProxy_new (P := interp) "on_tick") in
  ¬ NoDup (entities (add_receiver e0 proxy)) ∧
  delete_receiver e1 proxy = proxy.
Proof.
  intros proxy. split.
  - apply (receiver_list_operations proxy e0).
    apply list_elem_of_singleton. reflexivity.
  - apply (receiver_list_operations proxy e1).
    intros Hin%list_elem_of_singleton. discriminate Hin.
Defined.


(** The same on a state where one proxy is listed twice: the entity is
    appended once for each listing. *)
Example registration_per_listing :
  let w := shared_pending in
  let w' := snd (receive_ComponentAdded (added e0) w) in
  count_occ Nat.eq_dec (event_proxies_ w) 0 = 2 ∧
  registered w' 0 = registered w 0 ++ replicate 2 e0.
Proof. split; reflexivity. Qed.

Example pending_registered :
  registered pending 0 = [] ∧
  registered (snd (receive_ComponentAdded (added e0) pending)) 0 = [e0] ∧
  registered (snd (receive_ComponentAdded (added e0) pending)) 1 = [e0].
Proof. split_and!; reflexivity. Qed.


(** One proxy listed twice in [event_proxies_] receives the entity twice. *)
Example shared_proxy_registered :
  event_proxies_ shared_proxy = [0; 0] ∧ registered shared_proxy 0 = [e0; e0].
Proof. split; reflexivity. Qed.

(** Against C3 as stated: a second "component added" for a registered
    entity leaves it twice in the receiver list, and the "entity destroyed"
    that follows removes one of the two entries. *)
Lemma duplicate_registration_reachable :
  let w2 := after_all [ComponentAdded (added e0); ComponentAdded (added e0)]
              pending in
  let w3 := after (EntityDestroyed (mkDestroyed e0)) w2 in
  registered pending 0 = [] ∧
  registered w2 0 = [e0; e0] ∧ ¬ NoDup (registered w2 0) ∧
  e0 ∈ registered w3 0.
Proof.
  split_and!; [reflexivity|reflexivity| |].
  - change (¬ NoDup [e0; e0]). intros [Hin _]%NoDup_cons.
    apply Hin, list_elem_of_singleton. done.
  - change (e0 ∈ [e0]). apply list_elem_of_singleton. done.
Qed.

Lemma registration_lists_duplicate_free_witness :
  let ns := [ComponentAdded (added e0); EntityDestroyed (mkDestroyed e0);
             ComponentAdded (added e0)] in
  duplicate_free (after_all ns pending) ∧
  ∀ e, unregistered
         (after (EntityDestroyed (mkDestroyed e)) (after_all ns pending)) e.
Proof.
  intros ns. apply (registration_lists_duplicate_free ns pending).
  - vm_compute. list_NoDup.
  - intros p _. destruct p as [|[|p]]; vm_compute; apply NoDup_nil; done.
  - subst ns. cbn [added_once]. split_and!; try done.
    + intros p _. destruct p as [|[|p]]; vm_compute; apply not_elem_of_nil.
    + intros p _. destruct p as [|[|p]]; vm_compute; apply not_elem_of_nil.
Defined.

(** With the bridge subscribed, the caller of [assign] finds the object
    set. *)
Example assign_returns_realized :
  let c := PythonScript_new (P := interp) "game" "Player" [Float 4; Float 5] in
  let r := assign e0 c created in
  object c = None_ ∧
  r.1 = Ok (mkHandle true e0) ∧
  object <$> get_component (em_ r.2) e0
    = Some (Instance "Player" e0 [Float 4; Float 5]).
Proof. split_and!; reflexivity. Qed.

Lemma lazy_realization_witness :
  let m := "game" in let k := "Player" in
  let pack : list (py_object interp) := [Float 4; Float 5] in
  let c := PythonScript_new (P := interp) m k pack in
  let w0 := (assign_stored e0 c created).2 in
  let w' := (receive_ComponentAdded (mkAdded e0 (mkHandle true e0)) w0).2 in
  object c = None_ ∧
  get_component (em_ w0) e0
    = Some (mkPythonScript (P := interp) None_ pack m k) ∧
  ∃ md st1 kl factory o st2,
    PyImport_Import interp (python created) m = (inl md, st1) ∧
    PyObject_GetAttrString interp st1 md k = inl kl ∧
    PyObject_GetAttrString interp st1 kl "_from_raw_entity" = inl factory ∧
    PyObject_Call interp st1 factory (Id_to_python interp e0 :: pack)
      = (inl o, st2) ∧
    get_component (em_ w') e0 = Some (mkPythonScript o pack m k).
Proof.
  intros m k pack c w0 w'.
  destruct (lazy_realization (P := interp) created e0 m k pack)
    as (Hnew & Hstored & Hhandled); [reflexivity|vm_compute; lia|].
  split_and!; [exact Hnew|exact Hstored|].
  apply Hhandled. reflexivity.
Defined.

(** The handler does return on that state, with the object set. *)
Example handler_realizes_pending :
  let c := PythonScript_new (P := interp) "game" "Player" [Float 4; Float 5] in
  let w0 := (assign_stored e0 c created).2 in
  let r := receive_ComponentAdded (mkAdded e0 (mkHandle true e0)) w0 in
  r.1 = Ok tt ∧
  object <$> get_component (em_ r.2) e0
    = Some (Instance "Player" e0 [Float 4; Float 5]).
Proof. split; reflexivity. Qed.

Lemma realization_forwards_arguments_witness :
  let pack : list (py_object interp) := [Float 4; Float 5] in
  let o : py_object interp := Instance "Player" e0 pack in
  ∃ w1, realize_if_unset (added e0) pending = (Ok tt, w1) ∧
    receive_ComponentAdded (added e0) pending
      = for_each (event_proxies_ pending) (register (added e0)) w1 ∧
    calls w1 = calls pending ++ [Called (P := interp) (Factory "Player") (EntityId e0 :: pack)] ∧
    python w1 = start ∧
    handle_arrow (em_ w1) (added_component (added e0))
      = Some (mkPythonScript o pack "game" "Player").
Proof.
  intros pack o.
  apply (realization_forwards_arguments (P := interp) (added e0) pending
           "game" "Player" pack (Module_ "game") (Class_ "Player")
           (Factory "Player") o start start); reflexivity.
Defined.

(** The construction-from-script path with an object that tests true: no
    import, no factory call, the object itself in the component, and the
    same registrations as a realized [Player]. *)
Example configure_from_script :
  let r := EntityManager_configure player_self configured in
  r.1 = Ok e0 ∧ calls r.2 = [] ∧
  object <$> get_component (em_ r.2) e0 = Some player_self ∧
  registered r.2 0 = [e0] ∧ registered r.2 1 = [e0] ∧
  (each (em_ r.2)).*1 = [e0].
Proof. split_and!; reflexivity. Qed.

(** C8 at a script object that tests false (a class with [__len__], empty):
    the handler does not skip realization; it imports the component's
    module, which is the empty string for a wrapped object, and the import
    raises out of [EntityManager_configure]. *)
Theorem configure_false_object_realized :
  PyObject_IsTrue interp start bag_self = false ∧
  module (PythonScript_of_object (P := interp) bag_self) = "" ∧
  (EntityManager_configure bag_self configured).1
    = Throw (error_already_set (ImportError "")) ∧
  registered (EntityManager_configure bag_self configured).2 0 = [].
Proof. split_and!; reflexivity. Qed.

(** Against C5 as stated: the [Moth] lost its [on_tick]; the delivery
    raises, and the [Player] after it in the list is not called. *)
Lemma missing_handler_raises :
  let w := swarm_updated in
  let r := Broadcast_receive (P := interp) 0 Tick w in
  registered w 0 = [e0; e1; e2] ∧
  (∃ c, get_component (em_ w) e1 = Some c ∧
        PyObject_HasAttrString interp (python w) (object c) "on_tick"
          = false) ∧
  r.1 = Throw (error_already_set (AttributeError "on_tick")) ∧
  calls r.2 = calls w ++ [Sent (P := interp) (Instance "Player" e0 []) "on_tick" [Tick]] ∧
  ran (python r.2) = ran (python w) ++ [(e0, "on_tick")].
Proof.
  split_and!; [reflexivity| |reflexivity..].
  eexists. split; reflexivity.
Qed.

Lemma missing_handler_aborts_delivery_witness :
  let w := swarm_updated in
  let w1 := snd (Broadcast_deliver (P := interp) "on_tick" Tick e0 w) in
  Broadcast_receive (P := interp) 0 Tick w
    = (Throw (error_already_set (AttributeError "on_tick")), w1) ∧
  ∃ cs, Forall2 (λ e c, get_component (em_ w) e = Some c) [e0] cs ∧
    calls w1 = calls w ++ map (sent_event (P := interp) "on_tick" Tick) cs.
Proof.
  intros w w1.
  apply (missing_handler_aborts_delivery (P := interp) 0 Tick
           (mkProxy (P := interp) "on_tick" [e0; e1; e2] None) [e0] [e2] e1
           (mkPythonScript (P := interp) (Instance "Moth" e1 []) [] "game" "Moth")
           (AttributeError "on_tick") w w1); reflexivity.
Defined.

Lemma handler_error_aborts_pass_witness :
  (∃ w', PythonSystem_update (P := interp) 7 mined
           = (Throw (error_already_set RuntimeError), w') ∧
     calls w' = calls mined ++
       map (sent_update (P := interp) 7)
         ([(e0, mkPythonScript (P := interp) (Instance "Player" e0 []) [] "game" "Player")] ++
          [(e1, mkPythonScript (P := interp) (Instance "Bomb" e1 []) [] "game" "Bomb")]) ∧
     printed w' = printed mined ++ [RuntimeError]) ∧
  (∃ w', Broadcast_receive (P := interp) 0 Tick mined
           = (Throw (error_already_set RuntimeError), w') ∧
     ∃ cs, Forall2 (λ e c, get_component (em_ mined) e = Some c) [e0] cs ∧
       calls w' = calls mined ++
         map (sent_event (P := interp) "on_tick" Tick)
           (cs ++ [mkPythonScript (P := interp) (Instance "Bomb" e1 []) [] "game" "Bomb"])).
Proof.
  destruct (handler_error_aborts_pass (P := interp)) as [Hupdate Hdeliver].
  split.
  - apply (Hupdate 7 mined
             (snd (update_entity (P := interp) 7
                (e0, mkPythonScript (P := interp) (Instance "Player" e0 []) [] "game" "Player")
                mined))
             _ [(e2, mkPythonScript (P := interp) (Instance "Player" e2 []) [] "game" "Player")]
             _ (Bound (Instance "Bomb" e1 []) "update") RuntimeError
             (mkState [] [(e0, "update")])); reflexivity.
  - apply (Hdeliver 0 Tick (mkProxy (P := interp) "on_tick" [e0; e1; e2] None) [e0] [e2] e1
             _ (Bound (Instance "Bomb" e1 []) "on_tick") RuntimeError
             (mkState [] [(e0, "on_tick")]) mined
             (snd (Broadcast_deliver (P := interp) "on_tick" Tick e0 mined))); reflexivity.
Defined.

(** Against C9 as stated: an entity whose component is not realized stops
    the pass, and the realized [Player] after it is not updated. *)
Lemma update_stops_at_unrealized :
  let r := PythonSystem_update (P := interp) 7 stalled in
  object <$> get_component (em_ stalled) e1 = Some None_ ∧
  object <$> get_component (em_ stalled) e2 = Some (Instance "Player" e2 []) ∧
  r.1 = Throw (error_already_set (AttributeError "update")) ∧
  calls r.2 = calls stalled ++
    [Sent (P := interp) (Instance "Player" e0 []) "update" [Float 7]] ∧
  ran (python r.2) = [(e0, "update")].
Proof. split_and!; reflexivity. Qed.

Lemma update_pass_calls_witness :
  (∃ w', PythonSystem_update (P := interp) 7 populated = (Ok tt, w') ∧
     calls w' = calls populated ++
       map (sent_update (P := interp) 7) (each (em_ populated))) ∧
  (∃ exc,
     PythonSystem_update (P := interp) 7 stalled
       = (Throw (error_already_set exc),
          log_printed exc
            (snd (update_entity (P := interp) 7
                    (e0, mkPythonScript (Instance "Player" e0 []) [] "game"
                           "Player") stalled))) ∧
     calls (snd (update_entity (P := interp) 7
                   (e0, mkPythonScript (Instance "Player" e0 []) [] "game"
                          "Player") stalled))
       = calls stalled ++
         map (sent_update (P := interp) 7)
           [(e0, mkPythonScript (Instance "Player" e0 []) [] "game"
                   "Player")]).
Proof.
  split.
  - apply (update_pass_calls (P := interp) 7 populated).
    apply update_loop_total.
    exists (snd (PythonSystem_update (P := interp) 7 populated)).
    vm_compute. reflexivity.
  - apply (update_pass_calls (P := interp) 7 stalled) with
      (post := [(e2, mkPythonScript (Instance "Player" e2 []) [] "game"
                       "Player")])
      (x := (e1, mkPythonScript None_ [] "game" "Player")); reflexivity.
Defined.

End Concrete.

(** * The rest of the bridge: properties *)

(** ** Line buffering of [PythonEntityXLogger] *)

Section LoggerFacts.
Context {L : Type}.
Implicit Types (lg : PythonEntityXLogger L) (out : list (L * list ascii))
  (s text rest : list ascii) (lines : list (list ascii)).

Lemma find_Some (c : ascii) s (n : nat) :
  find c s = Some n →
  s = take n s ++ c :: drop (S n) s ∧ c ∉ take n s.
Proof.
  unfold find. destruct (list_find _ s) as [[i x]|] eqn:Hf; [|done].
  intros [= ->]. apply list_find_Some in Hf as (Hl & -> & Hmin). split.
  - by rewrite (take_drop_middle s n c Hl).
  - intros (j & Hj)%list_elem_of_lookup_1.
    pose proof (lookup_lt_Some _ _ _ Hj) as Hlt.
    rewrite lookup_take_Some in Hj. destruct Hj as [Hj Hjn].
    by apply (Hmin j c).
Qed.

Lemma find_None (c : ascii) s : find c s = None → c ∉ s.
Proof.
  unfold find. destruct (list_find _ s) as [[i x]|] eqn:Hf; [done|].
  intros _ Hin. apply list_find_None in Hf.
  by apply (proj1 (Forall_forall _ _) Hf c).
Qed.

Lemma unlines_cons (l : list ascii) lines rest :
  unlines (l :: lines) rest = l ++ newline :: unlines lines rest.
Proof. unfold unlines. simpl. by rewrite <- !app_assoc. Qed.

Lemma unlines_app lines1 lines2 rest :
  unlines (lines1 ++ lines2) rest
  = concat ((λ l, l ++ [newline]) <$> lines1) ++ unlines lines2 rest.
Proof. unfold unlines. by rewrite fmap_app, concat_app, <- app_assoc. Qed.

(** With enough fuel the loop ends because no newline is left. *)
Lemma flush_loop_spec (fuel : nat) lg out :
  length (line_ lg) ≤ fuel →
  ∃ lines rest,
    flush_loop fuel lg out
      = (mkLogger (logger_ lg) rest, out ++ ((λ l, (logger_ lg, l)) <$> lines)) ∧
    line_ lg = unlines lines rest ∧
    Forall (λ l, newline ∉ l) lines ∧ newline ∉ rest.
Proof.
  revert lg out. induction fuel as [|fuel IH]; intros [l s] out Hlen;
    simpl in *.
  { destruct s; [|simpl in Hlen; lia]. exists [], [].
    rewrite app_nil_r. split_and!; [done|done|constructor|apply not_elem_of_nil]. }
  destruct (find newline s) as [n|] eqn:Hf.
  - apply find_Some in Hf as [Hs Hn].
    assert (length (drop (S n) s) ≤ fuel) as Hlen'.
    { rewrite Hs, length_app in Hlen. simpl in Hlen. lia. }
    destruct (IH (mkLogger l (substr_from s (n + 1)))
                 (out ++ [(l, substr s 0 n)])) as (lines & rest & -> & Hl & Hls & Hr).
    { simpl. unfold substr_from. by rewrite Nat.add_1_r. }
    simpl in *. exists (take n s :: lines), rest. split_and!.
    + unfold substr. rewrite drop_0. simpl. by rewrite <- app_assoc.
    + rewrite unlines_cons, <- Hl. unfold substr_from.
      by rewrite Nat.add_1_r.
    + by constructor.
    + done.
  - exists [], s. rewrite app_nil_r. split_and!; [done|done|constructor|].
    by apply find_None.
Qed.

Lemma first_newline_unique (x y t u : list ascii) :
  newline ∉ x → newline ∉ y →
  x ++ newline :: t = y ++ newline :: u → x = y ∧ t = u.
Proof.
  revert y. induction x as [|c x IH]; intros [|d y] Hx Hy; simpl.
  - by intros [= ->].
  - intros [= <- _]. exfalso. apply Hy, elem_of_cons. by left.
  - intros [= -> _]. exfalso. apply Hx, elem_of_cons. by left.
  - intros [= -> Heq]. apply not_elem_of_cons in Hx as [_ Hx].
    apply not_elem_of_cons in Hy as [_ Hy].
    destruct (IH y Hx Hy Heq) as [-> ->]. done.
Qed.

(** A text has one decomposition into newline-free lines and a
    newline-free rest. *)
Lemma unlines_inj lines1 rest1 lines2 rest2 :
  Forall (λ l, newline ∉ l) lines1 → newline ∉ rest1 →
  Forall (λ l, newline ∉ l) lines2 → newline ∉ rest2 →
  unlines lines1 rest1 = unlines lines2 rest2 →
  lines1 = lines2 ∧ rest1 = rest2.
Proof.
  revert lines2. induction lines1 as [|l1 lines1 IH];
    intros [|l2 lines2] H1 Hr1 H2 Hr2; rewrite ?unlines_cons.
  - unfold unlines. simpl. done.
  - unfold unlines at 1. simpl. intros ->. exfalso. apply Hr1.
    apply elem_of_app. right. apply elem_of_cons. by left.
  - unfold unlines at 2. simpl. intros <-. exfalso. apply Hr2.
    apply elem_of_app. right. apply elem_of_cons. by left.
  - apply Forall_cons in H1 as [Hl1 H1]. apply Forall_cons in H2 as [Hl2 H2].
    intros [-> Heq]%first_newline_unique; [|done..].
    destruct (IH lines2 H1 Hr1 H2 Hr2 Heq) as [-> ->]. done.
Qed.

Lemma write_spec text lg out :
  ∃ lines rest,
    write text lg out
      = (mkLogger (logger_ lg) rest, out ++ ((λ l, (logger_ lg, l)) <$> lines)) ∧
    line_ lg ++ text = unlines lines rest ∧
    Forall (λ l, newline ∉ l) lines ∧ newline ∉ rest.
Proof.
  unfold write, flush. simpl.
  destruct (flush_loop_spec (length (line_ lg ++ text))
              (mkLogger (logger_ lg) (line_ lg ++ text)) out)
    as (lines & rest & -> & Hl & Hls & Hr); [done|].
  exists lines, rest. done.
Qed.

(** X1. [write] hands the complete lines of the buffered text followed by
    the new text to the logger's callback, in order and without their
    newlines, and keeps what follows the last newline in the buffer: no
    character is lost, repeated or reordered, and neither an emitted line
    nor the buffer holds a newline. *)
Theorem write_splits_lines text lg out :
  ∃ lines rest,
    write text lg out
      = (mkLogger (logger_ lg) rest, out ++ ((λ l, (logger_ lg, l)) <$> lines)) ∧
    line_ lg ++ text = unlines lines rest ∧
    Forall (λ l, newline ∉ l) lines ∧ newline ∉ rest.
Proof. apply write_spec. Qed.

(** X2. Writing a text in two pieces gives the same calls of the callback
    and the same buffer as writing it at once: where a write is cut does
    not show in the log. *)
Theorem write_write (a b : list ascii) lg out :
  (let '(lg1, out1) := write a lg out in write b lg1 out1)
  = write (a ++ b) lg out.
Proof.
  destruct (write_spec a lg out)
    as (lines1 & rest1 & -> & H1 & Hls1 & Hr1).
  destruct (write_spec b (mkLogger (logger_ lg) rest1)
              (out ++ ((λ l, (logger_ lg, l)) <$> lines1)))
    as (lines2 & rest2 & -> & H2 & Hls2 & Hr2).
  destruct (write_spec (a ++ b) lg out)
    as (lines & rest & -> & H & Hls & Hr).
  simpl in *.
  assert (unlines lines rest = unlines (lines1 ++ lines2) rest2) as Heq.
  { rewrite <- H, app_assoc, H1, unlines_app, <- H2.
    unfold unlines. by rewrite <- app_assoc. }
  apply unlines_inj in Heq as [-> ->]; [|done|done|by apply Forall_app|done].
  by rewrite fmap_app, app_assoc.
Qed.

(** X3. The destructor flushes: the complete lines still in the buffer go
    to the callback, then what is left goes to it as a last line when it is
    not empty, and the buffer ends empty. *)
Theorem destroy_flushes_buffer lg out :
  ∃ lines rest,
    line_ lg = unlines lines rest ∧
    Forall (λ l, newline ∉ l) lines ∧ (newline ∉ rest) ∧
    PythonEntityXLogger_destroy lg out
      = (mkLogger (logger_ lg) [],
         out ++ ((λ l, (logger_ lg, l)) <$>
                   (lines ++ if decide (rest = []) then [] else [rest]))).
Proof.
  unfold PythonEntityXLogger_destroy, flush.
  destruct (flush_loop_spec (length (line_ lg)) lg out)
    as (lines & rest & -> & Hl & Hls & Hr); [done|].
  exists lines, rest. split_and!; [done..|]. simpl.
  destruct rest as [|c rest]; simpl.
  - by rewrite app_nil_r.
  - by rewrite fmap_app, app_assoc.
Qed.

End LoggerFacts.

(** ** Search paths and one-time initialization *)

Section SettingsFacts.
Context {L : Type}.
Implicit Types (s : PythonSystemSettings L) (sys : sys_module L).

Lemma add_paths_paths (paths : list string) s :
  python_paths (add_paths paths s) = python_paths s ++ paths ∧
  stdout_ (add_paths paths s) = stdout_ s ∧
  stderr_ (add_paths paths s) = stderr_ s.
Proof.
  unfold add_paths, python_paths. revert s.
  induction paths as [|p paths IH]; intros s; simpl.
  - by rewrite app_nil_r.
  - destruct (IH (add_path p s)) as (-> & -> & ->). simpl.
    by rewrite <- app_assoc.
Qed.

Lemma insert_paths_rev (paths : list string) sys :
  foldl (λ sys path,
           mkSys (sys_stdout sys) (sys_stderr sys)
             (path_insert_front path (sys_path sys))) sys paths
  = mkSys (sys_stdout sys) (sys_stderr sys) (reverse paths ++ sys_path sys).
Proof.
  revert sys. induction paths as [|p paths IH]; intros sys; simpl.
  - by destruct sys.
  - rewrite IH. simpl. unfold path_insert_front.
    by rewrite reverse_cons, <- app_assoc.
Qed.

(** X4. [configure] inserts each configured path at the front of
    [sys.path], so the paths end up ahead of the interpreter's own in the
    reverse of the order they were added: the path added last is searched
    first.  The two streams become loggers with an empty buffer that call
    the callbacks given to [log_to] before [configure]. *)
Theorem configure_reverses_paths (paths : list string) (sout serr : L) s sys :
  let sys' := configure_sys (log_to sout serr (add_paths paths s)) sys in
  sys_path sys' = reverse paths ++ reverse (python_paths s) ++ sys_path sys ∧
  sys_stdout sys' = Some (mkLogger sout []) ∧
  sys_stderr sys' = Some (mkLogger serr []).
Proof.
  destruct (add_paths_paths paths s) as (Hp & _ & _).
  unfold python_paths in Hp. unfold configure_sys, log_to.
  rewrite insert_paths_rev. simpl. rewrite Hp.
  by rewrite reverse_app, <- app_assoc.
Qed.

End SettingsFacts.

Lemma PythonSystem_construct_again (ndebug appended : bool) (p : process) :
  initialized_ p = true →
  PythonSystem_construct ndebug appended p
  = Some (mkProcess true (ran_ p ++ [Py_Initialize])).
Proof.
  intros Hi. unfold PythonSystem_construct, run_action. rewrite Hi. simpl.
  by rewrite Hi.
Qed.

Lemma construct_many_again (ndebug appended : bool) (n : nat) (p : process) :
  initialized_ p = true →
  construct_many ndebug appended n p
  = Some (mkProcess true (ran_ p ++ replicate n Py_Initialize)).
Proof.
  revert p. induction n as [|n IH]; intros p Hi.
  { simpl. rewrite app_nil_r. destruct p; simpl in *; by subst. }
  simpl. rewrite PythonSystem_construct_again by done.
  rewrite IH by done. simpl. by rewrite <- app_assoc.
Qed.

(** X5. However many [PythonSystem] objects a process constructs, every
    constructor calls [Py_Initialize] and only the first one initializes the
    [_entityx] module.  In a build with assertions, the first constructor
    also registers the module with [PyImport_AppendInittab], once, before
    [Py_Initialize], and aborts the process when that call fails.  In a
    build with [NDEBUG] the registration is compiled out with the [assert]:
    [PyImport_AppendInittab] is never called. *)
Theorem PythonSystem_initializes_once (n : nat) :
  construct_many false true (S n) fresh_process
    = Some (mkProcess true
              ([PyImport_AppendInittab_entityx; Py_Initialize; init_entityx]
               ++ replicate n Py_Initialize)) ∧
  construct_many false false (S n) fresh_process = None ∧
  (∀ appended,
     construct_many true appended (S n) fresh_process
       = Some (mkProcess true
                 ([Py_Initialize; init_entityx] ++ replicate n Py_Initialize))).
Proof.
  split_and!; [|done|intros appended];
    cbn [construct_many]; unfold PythonSystem_construct; simpl;
    by rewrite construct_many_again.
Qed.

(** ** The proxy list *)

Section ProxyListFacts.
Context {P : Python}.
Implicit Types (w : world P) (ev : ComponentAddedEvent) (e : Entity)
  (ps : list nat).


Lemma register_loop_length ev ps w :
  length (proxy_heap (for_each ps (register ev) w).2) = length (proxy_heap w).
Proof.
  revert w. induction ps as [|p ps IH]; intros w; simpl; [done|].
  unfold bind. destruct (register ev p w) as [r w1] eqn:Hr.
  apply register_inv in Hr as [(f & -> & ->)|(this & c & -> & _ & _ & ->)];
    [done|].
  rewrite IH. destruct (can_send this (python w) (object c)); [|done].
  simpl. apply length_alter.
Qed.


(** With every pointer of the list on a target and the component in place,
    the registration loop does not fail. *)
Lemma register_loop_total ev ps w (c : PythonScript P) :
  (∀ p, p ∈ ps → p < length (proxy_heap w)) →
  handle_arrow (em_ w) (added_component ev) = Some c →
  ∃ w', for_each ps (register ev) w = (Ok tt, w').
Proof.
  revert w. induction ps as [|p ps IH]; intros w Hin Hc; simpl.
  { by exists w. }
  unfold bind. destruct (register ev p w) as [r w1] eqn:Hr.
  pose proof Hr as Hr'.
  apply register_inv in Hr' as [(f & -> & ->)|(this & c' & -> & _ & _ & ->)].
  - exfalso. revert Hr.
    unfold register, bind, proxy_at, deref, gets, proxy_update, modify, ret.
    destruct (lookup_lt_is_Some_2 (proxy_heap w) p) as [this ->].
    { apply Hin, elem_of_cons. by left. }
    rewrite Hc. by destruct (can_send this (python w) (object c)).
  - apply IH.
    + intros q Hq. destruct (can_send this (python w) (object c')); simpl;
        rewrite ?length_alter; apply Hin, elem_of_cons; by right.
    + by destruct (can_send this (python w) (object c')).
Qed.

Lemma unregister_loop_length e ps w :
  length (proxy_heap
    (for_each ps (λ p, proxy_update p (delete_receiver e)) w).2)
  = length (proxy_heap w).
Proof.
  revert w. induction ps as [|p ps IH]; intros w; [done|].
  change (for_each (p :: ps) (λ p, proxy_update p (delete_receiver e)) w)
    with (for_each ps (λ p, proxy_update p (delete_receiver e))
            (with_proxy_heap (alter (delete_receiver e) p (proxy_heap w)) w)).
  rewrite IH. simpl. apply length_alter.
Qed.

Lemma alter_fixed {A} (f : A → A) (l : list A) (i : nat) :
  (∀ x, l !! i = Some x → f x = x) → alter f i l = l.
Proof.
  intros Hf. apply list_eq. intros j. rewrite list_lookup_alter.
  destruct (decide (i = j)) as [->|]; [|done].
  destruct (l !! j) as [x|] eqn:Hl; [|done]. simpl. by rewrite Hf.
Qed.

Lemma unregister_loop_cons e (p : nat) ps w :
  for_each (p :: ps) (λ p, proxy_update p (delete_receiver e)) w
  = for_each ps (λ p, proxy_update p (delete_receiver e))
      (with_proxy_heap (alter (delete_receiver e) p (proxy_heap w)) w).
Proof. done. Qed.

Lemma unregister_loop_lookup e ps w (q : nat) :
  q ∉ ps →
  proxy_heap (for_each ps (λ p, proxy_update p (delete_receiver e)) w).2 !! q
  = proxy_heap w !! q.
Proof.
  revert w. induction ps as [|p ps IH]; intros w Hq; [done|].
  apply not_elem_of_cons in Hq as [Hne Hq].
  rewrite unregister_loop_cons, (IH _ Hq). simpl.
  by rewrite list_lookup_alter_ne.
Qed.

(** With each proxy listed once, the handler erases the first entry of the
    destroyed entity from every known proxy's list, and nothing else. *)
Lemma unregister_loop_exact e ps w (q : nat) :
  NoDup ps → q ∈ ps →
  let w' := (for_each ps (λ p, proxy_update p (delete_receiver e)) w).2 in
  registered w' q = erase_first e (registered w q) ∧
  ∀ this, proxy_heap w !! q = Some this →
    ∃ this', proxy_heap w' !! q = Some this' ∧
      handler_name this' = handler_name this.
Proof.
  revert w. induction ps as [|p ps IH]; intros w Hnd Hq.
  { by apply elem_of_nil in Hq. }
  apply NoDup_cons in Hnd as [Hp Hnd]. rewrite unregister_loop_cons.
  set (w1 := with_proxy_heap (alter (delete_receiver e) p (proxy_heap w)) w).
  destruct (unregister_loop e ps w1)
    as (w' & Hrun & _ & _ & _ & _ & _ & Hout & _).
  apply elem_of_cons in Hq as [->|Hq].
  - rewrite Hrun. cbn [snd]. rewrite (Hout p Hp). split.
    { apply registered_delete_receiver. }
    intros this Hthis.
    assert (proxy_heap w' !! p = proxy_heap w1 !! p) as Hsame.
    { pose proof (unregister_loop_lookup e ps w1 p Hp) as Hl.
      by rewrite Hrun in Hl. }
    rewrite Hsame. simpl. rewrite list_lookup_alter_eq, Hthis. simpl.
    by eexists.
  - assert (p ≠ q) as Hne by (by intros ->).
    destruct (IH w1 Hnd Hq) as [Hreg Hname]. split.
    + rewrite Hreg. unfold w1. rewrite registered_proxy_update.
      by destruct (decide (p = q)).
    + intros this Hthis. apply Hname. simpl.
      by rewrite list_lookup_alter_ne.
Qed.

Lemma after_proxies_wf (n : notification) w :
  proxies_wf w → proxies_wf (after n w).
Proof.
  intros [Hnd Hlt]. split; rewrite after_event_proxies; [done|].
  intros p Hp%Hlt. destruct n as [ev|ev]; unfold after, receive.
  - rewrite receive_ComponentAdded_eq.
    pose proof (realize_if_unset_frame ev w) as [Hheap _].
    destruct (realize_if_unset ev w) as [[[]|f] w1]; simpl in *.
    + by rewrite register_loop_length, Hheap.
    + by rewrite Hheap.
  - unfold receive_EntityDestroyed, bind, gets.
    by rewrite unregister_loop_length.
Qed.

(** X6. A bridge that gets its proxies from the handler-name form of
    [add_event_proxy] keeps every pointer of [event_proxies_] on a proxy of
    its own: each proxy is listed once and none dangles.  This holds of a
    bridge without proxies, [add_event_proxy] with a handler name keeps it
    (the proxy it adds is new and has no receiver), and so does every
    notification the bridge handles. *)
Theorem proxy_list_well_formed :
  (∀ w, event_proxies_ w = [] → proxies_wf w) ∧
  (∀ w (name : string), proxies_wf w →
     let w' := (add_broadcast_event_proxy name w).2 in
     proxies_wf w' ∧
     event_proxies_ w' = event_proxies_ w ++ [length (proxy_heap w)] ∧
     registered w' (length (proxy_heap w)) = [] ∧
     ∀ p, p < length (proxy_heap w) → registered w' p = registered w p) ∧
  (∀ w (ns : list notification), proxies_wf w → proxies_wf (after_all ns w)).
Proof.
  split_and!.
  - intros w Hnil. split; rewrite Hnil; [constructor|].
    intros p Hp. by apply elem_of_nil in Hp.
  - intros w name [Hnd Hlt]. simpl. split_and!.
    + split; simpl.
      * apply NoDup_app. split_and!; [done| |apply NoDup_singleton].
        intros p Hp%Hlt ->%list_elem_of_singleton. lia.
      * intros p [Hp%Hlt| ->%list_elem_of_singleton]%elem_of_app;
          rewrite length_app; simpl; lia.
    + done.
    + unfold registered. simpl.
      by rewrite lookup_app_r, Nat.sub_diag by done.
    + intros p Hp. unfold registered. simpl. by rewrite lookup_app_l.
  - intros w ns. revert w. induction ns as [|n ns IH]; intros w Hwf; [done|].
    simpl. by apply IH, after_proxies_wf.
Qed.

(** X7. A proxy added after scripted entities were realized starts with
    an empty receiver list, whatever entities exist: an event of its type
    is delivered to none of them, and the delivery changes nothing. *)
Theorem late_proxy_receives_nothing (name : string) (event : py_object P) w :
  let w' := (add_broadcast_event_proxy name w).2 in
  let p := length (proxy_heap w) in
  each (em_ w') = each (em_ w) ∧
  registered w' p = [] ∧
  Broadcast_receive p event w' = (Ok tt, w').
Proof.
  simpl. split_and!; [done| |].
  - unfold registered. simpl. by rewrite lookup_app_r, Nat.sub_diag by done.
  - unfold Broadcast_receive, bind, proxy_at. simpl.
    by rewrite lookup_app_r, Nat.sub_diag by done.
Qed.

(** X8. The "entity destroyed" handler changes nothing at all when the
    entity is in no known proxy's receiver list, as for an entity that
    never had a script. *)
Theorem destroy_unregistered_is_noop e w :
  unregistered w e →
  receive_EntityDestroyed (mkDestroyed e) w = (Ok tt, w).
Proof.
  unfold unregistered, receive_EntityDestroyed, bind, gets. simpl.
  generalize (event_proxies_ w) as ps.
  induction ps as [|p ps IH]; intros Hun; [done|].
  rewrite unregister_loop_cons, alter_fixed.
  - assert (with_proxy_heap (proxy_heap w) w = w) as -> by (by destruct w).
    apply IH. intros q Hq. apply Hun, elem_of_cons. by right.
  - intros this Hthis. unfold delete_receiver.
    rewrite erase_first_absent; [by destruct this|].
    specialize (Hun p). unfold registered in Hun. rewrite Hthis in Hun.
    apply Hun, elem_of_cons. by left.
Qed.

Lemma Broadcast_receive_Ok (p : nat) (event : py_object P)
    (this : PythonEventProxy P) w w' :
  proxy_heap w !! p = Some this →
  Broadcast_receive p event w = (Ok tt, w') →
  em_ w' = em_ w ∧ proxy_heap w' = proxy_heap w ∧
  ∃ cs, Forall2 (λ e c, get_component (em_ w) e = Some c) (entities this) cs ∧
    calls w' = calls w ++ map (sent_event (handler_name this) event) cs.
Proof.
  intros Hthis. rewrite (Broadcast_receive_eq p event w this Hthis).
  by intros (? & ? & _ & _ & ?)%deliver_loop_Ok.
Qed.

(** In a list without duplicates, erasing the first occurrence removes the
    entity and keeps the others in their order. *)
Lemma erase_first_filter e (l : list Entity) :
  NoDup l → erase_first e l = filter (λ x, x ≠ e) l.
Proof.
  induction l as [|i l IH]; [done|].
  intros [Hi Hnd]%NoDup_cons. simpl. rewrite filter_cons.
  destruct (decide (e = i)) as [->|Hne].
  - rewrite decide_False by (intros H; by apply H).
    rewrite <- (erase_first_absent i l) at 1 by done. by apply IH.
  - rewrite decide_True by done. f_equal. by apply IH.
Qed.

(** X9. For handlers that do not call back into the entity manager: when a
    broadcast delivery returns, the calls it has made are the proxy's
    handler, once on the script object of every entity in the receiver
    list, in the order the entities were registered, with the event as the
    one argument. *)
Theorem broadcast_delivers_in_order (p : nat) (event : py_object P)
    (this : PythonEventProxy P) w w' :
  proxy_heap w !! p = Some this →
  Broadcast_receive p event w = (Ok tt, w') →
  ∃ cs, Forall2 (λ e c, get_component (em_ w) e = Some c) (entities this) cs ∧
    calls w' = calls w ++ map (sent_event (handler_name this) event) cs.
Proof.
  intros Hthis Hrun.
  by destruct (Broadcast_receive_Ok p event this w w' Hthis Hrun)
    as (_ & _ & ?).
Qed.

(** X10. After the "entity destroyed" notification, with each proxy listed
    once and receiver lists free of duplicates, a known proxy's list is the
    old one with the destroyed entity filtered out, the others in their
    order.  For handlers that do not call back into the entity manager, a
    broadcast delivery that then returns has called the handler on exactly
    those, and made no call for the destroyed entity. *)
Theorem destroyed_entity_gets_no_event (p : nat) (event : py_object P)
    (this : PythonEventProxy P) e w :
  NoDup (event_proxies_ w) → p ∈ event_proxies_ w →
  proxy_heap w !! p = Some this → NoDup (entities this) →
  let w1 := after (EntityDestroyed (mkDestroyed e)) w in
  registered w1 p = filter (λ x, x ≠ e) (entities this) ∧
  (e ∉ registered w1 p) ∧
  ∀ w2, Broadcast_receive p event w1 = (Ok tt, w2) →
    ∃ cs, Forall2 (λ x c, get_component (em_ w) x = Some c)
            (filter (λ x, x ≠ e) (entities this)) cs ∧
      calls w2 = calls w ++ map (sent_event (handler_name this) event) cs.
Proof.
  intros Hnd Hp Hthis Hent. simpl.
  unfold after, receive, receive_EntityDestroyed, bind, gets. simpl.
  destruct (unregister_loop_exact e (event_proxies_ w) w p Hnd Hp)
    as [Hreg Hname].
  destruct (unregister_loop e (event_proxies_ w) w)
    as (w1 & Hrun & _ & Hem & _ & Hcalls & _).
  rewrite Hrun in *. simpl in *.
  assert (registered w p = entities this) as Hold
    by (unfold registered; by rewrite Hthis).
  rewrite Hold, (erase_first_filter e _ Hent) in Hreg.
  split_and!; [done| |].
  - rewrite Hreg. intros [Hne _]%list_elem_of_filter. by apply Hne.
  - intros w2 Hrun2. destruct (Hname this Hthis) as (this' & Hthis' & Hn).
    destruct (Broadcast_receive_Ok p event this' w1 w2 Hthis' Hrun2)
      as (_ & _ & cs & Hcs & Hcalls2).
    unfold registered in Hreg. rewrite Hthis' in Hreg.
    exists cs. rewrite <- Hreg, <- Hem, <- Hcalls, <- Hn. done.
Qed.

End ProxyListFacts.

(** ** Conversions, the collision proxy and failed realization *)

Section ConversionFacts.
Context {P : Python}.
Implicit Types (w : world P) (ev : ComponentAddedEvent) (e : Entity).

Lemma convert_eq e w :
  EntityToPythonEntity_convert e w =
  match get_component (em_ w) e with
  | Some c => (Ok (object c), w)
  | None => (Throw assertion_failed, w)
  end.
Proof.
  unfold EntityToPythonEntity_convert, bind, Entity_component, gets, deref,
    ret, throw.
  destruct (em_valid (em_ w) e) eqn:Hv.
  - unfold get_component, handle_arrow.
    destruct (handle_valid (em_ w) (component (em_ w) e)) eqn:Hh; simpl;
      [|done].
    rewrite Hh.
    by destruct (handle_get (em_ w) (component (em_ w) e)).
  - destruct (get_component (em_ w) e) as [c|] eqn:Hc; [|done].
    apply get_component_valid in Hc as [Hv' _]. congruence.
Qed.

(** X11. [EntityToPythonEntity::convert] returns the script object stored in
    the entity's [PythonScript] and changes nothing; for an entity that is
    not valid or holds no [PythonScript] its assertion fails. *)
Theorem convert_gives_script_object e w :
  EntityToPythonEntity_convert e w =
  match get_component (em_ w) e with
  | Some c => (Ok (object c), w)
  | None => (Throw assertion_failed, w)
  end.
Proof. apply convert_eq. Qed.

Lemma handle_arrow_store_inv {C} (em : EntityManager C) (id : Id) (c c' : C) :
  handle_arrow (store id c em) (mkHandle true id) = Some c' → c' = c.
Proof.
  unfold handle_arrow, handle_get, store. cbn [components_ id_].
  destruct (handle_valid _ _); [|done].
  destruct (decide (index id < length (components_ em))) as [Hlt|Hge].
  - rewrite list_lookup_insert_eq by done. simpl. congruence.
  - rewrite list_insert_ge by lia.
    rewrite lookup_ge_None_2 by lia. done.
Qed.

Lemma register_loop_Ok_frame ev (ps : list nat) w w' :
  for_each ps (register ev) w = (Ok tt, w') →
  python w' = python w ∧ em_ w' = em_ w ∧ calls w' = calls w.
Proof.
  intros Hrun. pose proof (register_loop_frame ev ps w) as Hf.
  rewrite Hrun in Hf. simpl in Hf. by destruct Hf as (? & ? & _ & ? & _).
Qed.

(** X12. An entity made from the script side converts back to the object
    that made it: when [EntityManager_configure] returns for a script
    object that tests true, no import and no factory call were made for it,
    [EntityToPythonEntity] gives that same object for the new entity, and
    the entity is among those the update pass visits. *)
Theorem configure_then_convert (self : py_object P) e w w' :
  PyObject_IsTrue P (python w) self = true →
  EntityManager_configure self w = (Ok e, w') →
  EntityToPythonEntity_convert e w' = (Ok self, w') ∧
  python w' = python w ∧ calls w' = calls w ∧
  (e, PythonScript_of_object self) ∈ each (em_ w').
Proof.
  intros Htrue. unfold EntityManager_configure, bind, EntityManager_create.
  destruct (create (em_ w)) as [e1 em1] eqn:Hcreate.
  unfold assign, assign_stored, bind, modify at 1.
  set (c := PythonScript_of_object self).
  set (w2 := with_em (store e1 c (em_ (with_em em1 w))) (with_em em1 w)).
  rewrite receive_ComponentAdded_eq.
  destruct (realize_if_unset _ w2) as [[[]|f] w3] eqn:Hr; [|done].
  destruct (handle_arrow (em_ w2) (mkHandle true e1)) as [c'|] eqn:Hc.
  2: { revert Hr. unfold realize_if_unset, bind, deref.
       cbn [added_component]. by rewrite Hc. }
  pose proof Hc as Heq. apply handle_arrow_store_inv in Heq. subst c'.
  rewrite (realize_if_unset_set (mkAdded e1 (mkHandle true e1)) w2 c Hc Htrue)
    in Hr.
  injection Hr as <-.
  destruct (for_each _ _ w2) as [[[]|f] w4] eqn:Hloop; [|done].
  apply register_loop_Ok_frame in Hloop as (Hpy & Hem & Hcalls).
  unfold ret. intros [= <- <-].
  rewrite handle_arrow_true in Hc. rewrite <- Hem in Hc.
  split_and!; [|done|done|by apply each_get_component].
  by rewrite convert_eq, Hc.
Qed.




(** X14. For a component that already carries an object that tests true, in
    a bridge whose proxy pointers all have a target, the handler returns:
    it makes no call into the interpreter, leaves the component alone, and
    is the registration loop only. *)
Theorem realized_component_is_only_registered ev (c : PythonScript P) w :
  proxies_wf w →
  handle_arrow (em_ w) (added_component ev) = Some c →
  PyObject_IsTrue P (python w) (object c) = true →
  ∃ w', receive_ComponentAdded ev w = (Ok tt, w') ∧
    python w' = python w ∧ em_ w' = em_ w ∧ calls w' = calls w.
Proof.
  intros [_ Hlt] Hc Htrue.
  rewrite (receive_ComponentAdded_realized ev w c Hc Htrue).
  destruct (register_loop_total ev (event_proxies_ w) w c Hlt Hc)
    as [w' Hrun].
  exists w'. split; [done|]. by apply register_loop_Ok_frame in Hrun.
Qed.

Lemma Collision_deliver_eq (event : CollisionEvent) (py_event : py_object P)
    e w :
  Collision_deliver event py_event e w =
  if decide (e = collision_a event ∨ e = collision_b event)
  then Broadcast_deliver "on_collision" py_event e w
  else (Ok tt, w).
Proof.
  unfold Collision_deliver, Broadcast_deliver.
  destruct (decide (e = collision_a event ∨ e = collision_b event))
    as [[->| ->]|Hn].
  - by rewrite bool_decide_eq_true_2.
  - rewrite (bool_decide_eq_true_2 (collision_b event = collision_b event))
      by done. by rewrite orb_true_r.
  - rewrite !bool_decide_eq_false_2; [done|..]; intros ->; apply Hn; auto.
Qed.

Lemma Collision_loop (event : CollisionEvent) (py_event : py_object P)
    (l : list Entity) w :
  for_each l (Collision_deliver event py_event) w =
  for_each (participants event l) (Broadcast_deliver "on_collision" py_event) w.
Proof.
  unfold participants. revert w.
  induction l as [|e l IH]; intros w; [done|].
  rewrite filter_cons. simpl. unfold bind at 1.
  rewrite Collision_deliver_eq.
  destruct (decide (e = collision_a event ∨ e = collision_b event)).
  - simpl. unfold bind.
    destruct (Broadcast_deliver _ _ e w) as [[[]|f] w1]; [apply IH|done].
  - apply IH.
Qed.

(** X15. The collision proxy of the test suite skips every registered
    entity that is not one of the two participants of the event, without
    looking at its component: with no participant registered the delivery
    changes nothing, whatever state the receivers are in.  For handlers
    that do not call back into the entity manager, a delivery that returns
    has called [on_collision] on the script objects of the registered
    participants, in list order, and made no other call. *)
Theorem collision_reaches_participants_only (p : nat) (event : CollisionEvent)
    (py_event : py_object P) (this : PythonEventProxy P) w :
  proxy_heap w !! p = Some this →
  (∀ w', Collision_receive p event py_event w = (Ok tt, w') →
     ∃ cs, Forall2 (λ e c, get_component (em_ w) e = Some c)
             (participants event (entities this)) cs ∧
       calls w' = calls w ++ map (sent_event "on_collision" py_event) cs) ∧
  (participants event (entities this) = [] →
   Collision_receive p event py_event w = (Ok tt, w)).
Proof.
  intros Hthis. unfold Collision_receive, bind, proxy_at. rewrite Hthis.
  rewrite Collision_loop. split.
  - by intros w' (_ & _ & _ & _ & ?)%deliver_loop_Ok.
  - by intros ->.
Qed.

End ConversionFacts.

(** ** [__repr__] *)

Lemma pretty_N_go_chars (Q : ascii → Prop) (x : N) (s : string) :
  (∀ d, Q (pretty_N_char d)) →
  string_Forall Q s → string_Forall Q (pretty_N_go x s).
Proof.
  intros Hd. revert s. induction (N.lt_wf_0 x) as [x _ IH]; intros s Hs.
  assert (x = 0 ∨ 0 < x)%N as [->|Hx] by lia.
  - by rewrite pretty_N_go_0.
  - rewrite pretty_N_go_step by done. apply IH.
    + by apply N.div_lt.
    + split; [apply Hd | done].
Qed.

Lemma pretty_nat_chars (Q : ascii → Prop) (n : nat) :
  (∀ d, Q (pretty_N_char d)) → string_Forall Q (pretty n).
Proof.
  intros Hd. unfold pretty, pretty_nat, pretty, pretty_N.
  destruct (decide (N.of_nat n = 0%N)).
  - split; [apply (Hd 0%N) | done].
  - by apply pretty_N_go_chars.
Qed.

Lemma digit_is_not (c : ascii) :
  c = "."%char ∨ c = ">"%char → ∀ d, pretty_N_char d ≠ c.
Proof.
  intros [-> | ->] d; unfold pretty_N_char; by repeat case_match.
Qed.

(** Two strings cut at the first occurrence of a character agree on both
    sides of the cut. *)
Lemma first_char_unique (c : ascii) (x y t u : string) :
  string_Forall (λ a, a ≠ c) x → string_Forall (λ a, a ≠ c) y →
  x +:+ String c t = y +:+ String c u → x = y ∧ t = u.
Proof.
  revert y. induction x as [|a x IH]; intros [|b y]; simpl.
  - by intros _ _ [= ->].
  - intros _ [Hb _] [= <- _]. done.
  - intros [Ha _] _ [= -> _]. done.
  - intros [_ Hx] [_ Hy] [= -> Heq].
    destruct (IH y Hx Hy Heq) as [-> ->]. done.
Qed.

Lemma decimal_pair_inj (i1 v1 i2 v2 : nat) :
  pretty i1 +:+ "." +:+ pretty v1 +:+ ">"
  = pretty i2 +:+ "." +:+ pretty v2 +:+ ">" →
  i1 = i2 ∧ v1 = v2.
Proof.
  intros Heq.
  apply (first_char_unique ".") in Heq as [Hi Hv];
    [|apply pretty_nat_chars, digit_is_not; by left..].
  apply (inj pretty) in Hi.
  apply (first_char_unique ">") in Hv as [Hv _];
    [|apply pretty_nat_chars, digit_is_not; by right..].
  apply (inj pretty) in Hv. done.
Qed.

(** X16. The [__repr__] of an entity and of an id tell entities apart: two
    ids with the same text have the same index and the same version. *)
Theorem repr_inj (id1 id2 : Id) :
  (Entity_Id_repr id1 = Entity_Id_repr id2 → id1 = id2) ∧
  (PythonEntity_repr id1 = PythonEntity_repr id2 → id1 = id2).
Proof.
  destruct id1 as [i1 v1], id2 as [i2 v2].
  unfold Entity_Id_repr, PythonEntity_repr. simpl.
  split; intros [= Heq]; apply decimal_pair_inj in Heq as [-> ->]; done.
Qed.

Example repr_texts :
  Entity_Id_repr (mkId 12 3) = "<Entity::Id 12.3>" ∧
  PythonEntity_repr (mkId 0 1) = "<Entity 0.1>".
Proof. split; reflexivity. Qed.

(** ** The rest of the bridge on concrete inputs *)

Section MoreConcrete.
Import Toy Scenes.

Example write_line_by_line :
  write (chars "two" ++ [newline] ++ [newline] ++ chars "thr")
    (mkLogger 7 (chars "line ")) []
  = (mkLogger 7 (chars "thr"), [(7, chars "line two"); (7, [])]) ∧
  PythonEntityXLogger_destroy (mkLogger 7 (chars "thr")) []
  = (mkLogger 7 [], [(7, chars "thr")]).
Proof. split; reflexivity. Qed.

Example configure_path_order :
  sys_path (configure_sys
    (add_paths ["game"; "mods"] (mkSettings ["lib"] 1 2))
    (mkSys None None ["/usr/lib/python"]))
  = ["mods"; "game"; "lib"; "/usr/lib/python"].
Proof. reflexivity. Qed.

Lemma pending_proxies_wf : proxies_wf pending.
Proof.
  split.
  - change (NoDup [0; 1]). list_NoDup.
  - intros p Hp. change (p ∈ [0; 1]) in Hp. change (p < 2).
    apply elem_of_cons in Hp as [->|Hp]; [lia|].
    apply list_elem_of_singleton in Hp as ->. lia.
Qed.

Lemma populated_proxies_wf : proxies_wf populated.
Proof.
  split.
  - change (NoDup [0; 1]). list_NoDup.
  - intros p Hp. change (p ∈ [0; 1]) in Hp. change (p < 2).
    apply elem_of_cons in Hp as [->|Hp]; [lia|].
    apply list_elem_of_singleton in Hp as ->. lia.
Qed.

Lemma proxy_list_well_formed_witness :
  proxies_wf (snd (add_broadcast_event_proxy "on_tick" empty_world)) ∧
  proxies_wf
    (after_all [ComponentAdded (added e0); EntityDestroyed (mkDestroyed e0)]
       pending).
Proof.
  destruct (proxy_list_well_formed (P := interp)) as (Hempty & Hadd & Hafter).
  split.
  - apply (Hadd empty_world "on_tick"). apply Hempty. reflexivity.
  - apply Hafter. apply pending_proxies_wf.
Defined.

Lemma destroy_unregistered_is_noop_witness :
  receive_EntityDestroyed (mkDestroyed e2) populated = (Ok tt, populated).
Proof.
  apply destroy_unregistered_is_noop.
  intros p Hp. change (p ∈ [0; 1]) in Hp.
  apply elem_of_cons in Hp as [->|Hp];
    [|apply list_elem_of_singleton in Hp as ->];
    change (e2 ∉ [e0; e1]);
    rewrite !elem_of_cons, elem_of_nil; intros [H|[H|H]]; done.
Defined.

Lemma broadcast_delivers_in_order_witness :
  let w' := snd (Broadcast_receive 1 Tick populated) in
  ∃ cs, Forall2 (λ e c, get_component (em_ populated) e = Some c)
          [e0; e1] cs ∧
    calls w' = calls populated ++ map (sent_event "on_collision" Tick) cs.
Proof.
  intros w'.
  apply (broadcast_delivers_in_order (P := interp) 1 Tick
           (mkProxy "on_collision" [e0; e1] None) populated w');
    reflexivity.
Defined.

Lemma destroyed_entity_gets_no_event_witness :
  let w1 := after (EntityDestroyed (mkDestroyed e0)) populated in
  let w2 := (Broadcast_receive 0 Tick w1).2 in
  registered w1 0 = filter (λ x, x ≠ e0) [e0; e1] ∧
  (e0 ∉ registered w1 0) ∧
  ∃ cs, Forall2 (λ x c, get_component (em_ populated) x = Some c)
          (filter (λ x, x ≠ e0) [e0; e1]) cs ∧
    calls w2 = calls populated ++ map (sent_event "on_tick" Tick) cs.
Proof.
  intros w1 w2.
  destruct (destroyed_entity_gets_no_event (P := interp) 0 Tick
              (mkProxy "on_tick" [e0; e1] None) e0 populated)
    as (Hlist & Hgone & Hdelivery).
  - change (NoDup [0; 1]). list_NoDup.
  - change (0 ∈ [0; 1]). apply elem_of_cons. by left.
  - reflexivity.
  - apply NoDup_cons. split; [|apply NoDup_singleton].
    intros Hin%list_elem_of_singleton. discriminate Hin.
  - split_and!; [exact Hlist|exact Hgone|].
    apply Hdelivery. reflexivity.
Defined.

Example destroyed_entity_delivery :
  let w1 := after (EntityDestroyed (mkDestroyed e0)) populated in
  registered w1 0 = [e1] ∧
  (Broadcast_receive 0 Tick w1).1 = Ok tt ∧
  ran (python (Broadcast_receive 0 Tick w1).2) = [(e1, "on_tick")].
Proof. split_and!; reflexivity. Qed.

Lemma configure_then_convert_witness :
  let w' := snd (EntityManager_configure player_self configured) in
  EntityToPythonEntity_convert e0 w' = (Ok player_self, w') ∧
  python w' = python configured ∧ calls w' = calls configured ∧
  (e0, PythonScript_of_object player_self) ∈ each (em_ w').
Proof.
  intros w'.
  apply (configure_then_convert (P := interp) player_self e0 configured w');
    reflexivity.
Defined.


Lemma realized_component_is_only_registered_witness :
  ∃ w', receive_ComponentAdded (added e1) populated = (Ok tt, w') ∧
    python w' = python populated ∧ em_ w' = em_ populated ∧
    calls w' = calls populated.
Proof.
  apply (realized_component_is_only_registered (P := interp) (added e1)
           (mkPythonScript (Instance "Player" e1 [Float 4; Float 5])
              [Float 4; Float 5] "game" "Player") populated).
  - apply populated_proxies_wf.
  - reflexivity.
  - reflexivity.
Defined.

Lemma collision_reaches_participants_only_witness :
  (let event := mkCollision e0 e2 in
   let w' := snd (Collision_receive 0 event Tick arena) in
   ∃ cs, Forall2 (λ e c, get_component (em_ arena) e = Some c)
           (participants event [e0; e1; e2]) cs ∧
     calls w' = calls arena ++ map (sent_event "on_collision" Tick) cs) ∧
  (let event := mkCollision (mkId 7 1) (mkId 8 1) in
   Collision_receive 0 event Tick arena = (Ok tt, arena)).
Proof.
  split.
  - intros event w'.
    apply (collision_reaches_participants_only (P := interp) 0 event Tick
             (mkProxy "on_collision" [e0; e1; e2] None) arena);
      reflexivity.
  - intros event.
    apply (collision_reaches_participants_only (P := interp) 0 event Tick
             (mkProxy "on_collision" [e0; e1; e2] None) arena);
      reflexivity.
Defined.

(** The run of the test suite's [TestEventDelivery]: [f] and [g] collide,
    [e] is not called. *)
Example collision_delivery :
  let r := Collision_receive 0 (mkCollision e0 e2) Tick arena in
  r.1 = Ok tt ∧
  ran (python r.2) = [(e0, "on_collision"); (e2, "on_collision")].
Proof. split; reflexivity. Qed.

End MoreConcrete.
